(** * ui-studio: the timeline resolver, the rendering component and the editor

    A shallow embedding of the repository, file by file:

    - [DashboardComposition] and [getSegments] (src/unnamed/part_003): the
      timeline state handed to the rendering layer at a frame, and the named
      segments of the composition;
    - [Root] (ui-base/src/remotion/Root.tsx);
    - the rendering component (ui-base/src/config/designSystem.ts, from its
      line 28 on): the pass list given to [MultiPassRenderer] and the
      readiness protocol of the mount effect, the layout effect of render
      mode, [snapToGrid] and the pointer handlers, and the shape computed by
      [doRender];
    - the orbital panels (ui-base/remotion.config.ts): the size cycle and
      the exchange of orders;
    - the editor (timeline-editor/src/App.tsx): load, [updateRows], [undo],
      [redo] and [save]; the table (src/unnamed/part_001): [componentColor]
      and the drop of a dragged row;
    - the /api/timeline middleware (src/unnamed/part_002).

    Numbers.  A JavaScript number that counts frames is an integer of the
    data model and is a [Z] here.  The numbers of the resolver (spring
    progress, sums, coordinates, the size multiplier) are [JSNumber]s: an
    exact rational or NaN, with the arithmetic and [Math.max], [Math.min]
    and [Math.round] of JavaScript on NaN.  The numbers of the settings, of
    the viewport and of the pointer are rationals [Q].  Rounding and the
    infinities of IEEE doubles are outside this model.  The functions the
    code takes from its libraries ([spring] of remotion, the string case of
    [Number], [JSON.parse]) are variables of the sections below; what depends
    on square roots and angles (the targets of the orbital panels) is not
    embedded. *)

From Stdlib Require Import ZArith QArith Qminmax Qround Qabs Lia Lqa.
From Stdlib Require Import Sorting.Sorted Sorting.Permutation.
From stdpp Require Import base list strings gmap sorting.

Local Open Scope string_scope.
Local Open Scope Z_scope.

(** ** Data model (ui-base/src/types/timeline.ts) *)

Record SpringConfig := mkSpringConfig {
  stiffness : Q;
  damping : Q;
  mass : Q
}.

(** [number | string | boolean], the values of [params]. *)
Inductive ParamValue :=
| PNum (q : Q)
| PStr (s : string)
| PBool (b : bool).

Record TimelineEvent := mkEvent {
  id : string;
  frame : Z;
  componentId : string;
  action : string;
  params : gmap string ParamValue;
  spring_cfg : option SpringConfig
}.

Record TimelineData := mkTimelineData {
  version : Z;
  fps : Z;
  durationFrames : Z;
  canvas : option (Q * Q);
  events : list TimelineEvent
}.

(** A number of the resolver: a rational, or NaN. *)
Inductive JSNumber :=
| NaN
| Num (q : Q).

(** [TimelineState] of ui-base/src/App.tsx; an absent [panelX] or [panelY]
    is [None]. *)
Record TimelineState := mkTimelineState {
  sizeMultiplier : JSNumber;
  isExpanded : bool;
  panelX : option JSNumber;
  panelY : option JSNumber
}.

(** The object passed to remotion's [spring]. *)
Record SpringArgs := mkSpringArgs {
  sa_fps : Z;
  sa_frame : Z;
  sa_config : SpringConfig;
  sa_from : Q;
  sa_to : Q
}.

(** What [useVideoConfig] returns. *)
Record VideoConfig := mkVideoConfig {
  vc_fps : Z;
  vc_width : Q;
  vc_height : Q;
  vc_durationInFrames : Z
}.

Definition DEFAULT_SPRING : SpringConfig :=
  {| stiffness := 280; damping := 24; mass := 1 |}.

(** ** JavaScript helpers *)

(** [Array.prototype.sort((a, b) => a.frame - b.frame)], for elements whose
    frame is read by [key]: the sort is stable, so its result is the stable
    sorted arrangement, computed here by insertion from the right. *)
Fixpoint insert_by {A : Type} (key : A → Z) (e : A) (l : list A) : list A :=
  match l with
  | [] => [e]
  | y :: l' =>
      if bool_decide (key e - key y ≤ 0)
      then e :: y :: l'
      else y :: insert_by key e l'
  end.

Definition sort_by {A : Type} (key : A → Z) (l : list A) : list A :=
  foldr (insert_by key) [] l.

(** Comparison of two numbers is decidable. *)
#[global]
Instance Qlt_decision (x y : Q) : Decision (x < y)%Q :=
  decide (Qnum x * QDen y < Qnum y * QDen x)%Z.

#[global]
Instance Qle_decision (x y : Q) : Decision (x <= y)%Q :=
  decide (Qnum x * QDen y ≤ Qnum y * QDen x)%Z.

(** [a + b], [a - b] and [a * b]: NaN as soon as an operand is NaN. *)
Definition js_add (a b : JSNumber) : JSNumber :=
  match a, b with
  | Num x, Num y => Num (x + y)
  | _, _ => NaN
  end.

Definition js_sub (a b : JSNumber) : JSNumber :=
  match a, b with
  | Num x, Num y => Num (x - y)
  | _, _ => NaN
  end.

Definition js_mul (a b : JSNumber) : JSNumber :=
  match a, b with
  | Num x, Num y => Num (x * y)
  | _, _ => NaN
  end.

(** [Math.max(a, b)] and [Math.min(a, b)]: NaN as soon as an argument is
    NaN. *)
Definition Math_max (a b : JSNumber) : JSNumber :=
  match a, b with
  | Num x, Num y => Num (Qmax x y)
  | _, _ => NaN
  end.

Definition Math_min (a b : JSNumber) : JSNumber :=
  match a, b with
  | Num x, Num y => Num (Qmin x y)
  | _, _ => NaN
  end.

Section Resolver.

(** [spring] of remotion. *)
Variable spring : SpringArgs → JSNumber.
(** [Number(s)] for a string [s]; NaN when the string is not a numeral. *)
Variable StringToNumber : string → JSNumber.

Definition Number (v : ParamValue) : JSNumber :=
  match v with
  | PNum q => Num q
  | PStr s => StringToNumber s
  | PBool true => Num 1
  | PBool false => Num 0
  end.

(** [Number(e.params[k] ?? d)] *)
Definition param_or (e : TimelineEvent) (k : string) (d : Q) : JSNumber :=
  Number (default (PNum d) (params e !! k)).

(** [{ fps, frame: frame - e.frame, config: e.spring ?? DEFAULT_SPRING,
      from: 0, to: 1 }] *)
Definition springArgs (fps : Z) (frame_now : Z) (e : TimelineEvent) : SpringArgs :=
  {| sa_fps := fps;
     sa_frame := frame_now - frame e;
     sa_config := default DEFAULT_SPRING (spring_cfg e);
     sa_from := 0;
     sa_to := 1 |}.

Section Frame.

Variable timelineData : TimelineData.
Variable cfg : VideoConfig.
(** [useCurrentFrame()] *)
Variable frame_now : Z.

Definition glassEvents : list TimelineEvent :=
  filter (λ e, componentId e = "GlassPanel" ∧ frame e ≤ frame_now)
         (events timelineData).

Definition expandEvents : list TimelineEvent :=
  filter (λ e, action e = "Expand") glassEvents.

Definition collapseEvents : list TimelineEvent :=
  filter (λ e, action e = "Collapse") glassEvents.

Definition expandSum : JSNumber :=
  fold_left (λ sum e, js_add sum (spring (springArgs (vc_fps cfg) frame_now e)))
            expandEvents (Num 0).

Definition collapseSum : JSNumber :=
  fold_left (λ sum e, js_add sum (spring (springArgs (vc_fps cfg) frame_now e)))
            collapseEvents (Num 0).

Definition netExpansion : JSNumber :=
  Math_max (Num 0) (Math_min (Num 1) (js_sub expandSum collapseSum)).

Definition sizeMultiplier_of : JSNumber := js_add (Num 1) (js_mul netExpansion (Num 0.8)).

Definition lastExpandFrame : Z :=
  fold_left (λ max e, Z.max max (frame e)) expandEvents (-1).

Definition lastCollapseFrame : Z :=
  fold_left (λ max e, Z.max max (frame e)) collapseEvents (-1).

Definition isExpanded_of : bool := bool_decide (lastExpandFrame > lastCollapseFrame).

Definition firedPositionEvents : list TimelineEvent :=
  sort_by frame
    (filter (λ e, componentId e = "GlassPanel" ∧ action e = "SetPosition"
                  ∧ frame e ≤ frame_now)
            (events timelineData)).

Definition defaultX : Q := ((vc_width cfg - 259) / 2)%Q.
Definition defaultY : Q := ((vc_height cfg - 124) / 2)%Q.

(** The [if (firedPositionEvents.length > 0)] block; [rev] gives the last
    element as [latest] and the one before it as [prev]. *)
Definition panelPosition : option JSNumber * option JSNumber :=
  match rev firedPositionEvents with
  | [] => (None, None)
  | latest :: before =>
      let prev := head before in
      let targetX := param_or latest "x" defaultX in
      let targetY := param_or latest "y" defaultY in
      let startX := from_option (λ p, param_or p "x" defaultX) (Num defaultX) prev in
      let startY := from_option (λ p, param_or p "y" defaultY) (Num defaultY) prev in
      let t := spring (springArgs (vc_fps cfg) frame_now latest) in
      (Some (js_add startX (js_mul (js_sub targetX startX) t)),
       Some (js_add startY (js_mul (js_sub targetY startY) t)))
  end.

(** The [timelineState] prop of [<App>]. *)
Definition DashboardComposition : TimelineState :=
  {| sizeMultiplier := sizeMultiplier_of;
     isExpanded := isExpanded_of;
     panelX := fst panelPosition;
     panelY := snd panelPosition |}.

End Frame.
End Resolver.

(** ** Notions used to state the behaviour of the resolver *)

(** [e] is an event of the document, for the panel, of action [cls], whose
    frame has been reached at frame [t]. *)
Definition fired (doc : TimelineData) (t : Z) (cls : string) (e : TimelineEvent) : Prop :=
  e ∈ events doc ∧ componentId e = "GlassPanel" ∧ action e = cls ∧ frame e ≤ t.

(** The fired events of the class [cls], in the order of the document. *)
Definition fired_events (doc : TimelineData) (t : Z) (cls : string) : list TimelineEvent :=
  filter (λ e, componentId e = "GlassPanel" ∧ action e = cls ∧ frame e ≤ t) (events doc).

(** The spring progress of the event [e] at frame [t]: the value of the
    spring curve from 0 to 1 at the time elapsed since the frame of the
    event, for the configuration the event carries, and for stiffness 280,
    damping 24 and mass 1 when it carries none. *)
Definition progress_at (spring : SpringArgs → JSNumber) (fps t : Z) (e : TimelineEvent)
  : JSNumber :=
  spring {| sa_fps := fps;
            sa_frame := t - frame e;
            sa_config := match spring_cfg e with
                         | Some c => c
                         | None => {| stiffness := 280; damping := 24; mass := 1 |}
                         end;
            sa_from := 0;
            sa_to := 1 |}.

(** What one event adds to the progress of the class [cls] at frame [t]: its
    spring progress once its frame is reached, and 0 before. *)
Definition contribution (spring : SpringArgs → JSNumber) (fps t : Z) (cls : string)
    (e : TimelineEvent) : JSNumber :=
  if bool_decide (componentId e = "GlassPanel" ∧ action e = cls ∧ frame e ≤ t)
  then progress_at spring fps t e
  else Num 0.

(** Two numbers are the same: both are NaN, or they are equal rationals. *)
Definition same_number (a b : JSNumber) : Prop :=
  match a, b with
  | NaN, NaN => True
  | Num x, Num y => (x == y)%Q
  | _, _ => False
  end.

(** The sum of a list of numbers, added one after the other from 0 in the
    order of the list. *)
Definition Qsum (l : list Q) : Q := fold_left Qplus l 0%Q.

(** [x] clamped to [0, 1]. *)
Definition clamp_unit (x : Q) : Q :=
  if decide (x < 0)%Q then 0%Q else if decide (1 < x)%Q then 1%Q else x.

(** The document [doc] with its events replaced. *)
Definition with_events (doc : TimelineData) (evs : list TimelineEvent) : TimelineData :=
  {| version := version doc; fps := fps doc; durationFrames := durationFrames doc;
     canvas := canvas doc; events := evs |}.

(** The coordinate [k] an event asks for, as a number: the parameter [k] of
    the event (a string being converted, a boolean counting as 1 or 0), and
    [origin] when the event has no such parameter. *)
Definition target_coordinate (StringToNumber : string → JSNumber) (k : string)
    (origin : Q) (e : TimelineEvent) : JSNumber :=
  match params e !! k with
  | Some (PNum q) => Num q
  | Some (PStr s) => StringToNumber s
  | Some (PBool true) => Num 1
  | Some (PBool false) => Num 0
  | None => Num origin
  end.

(** Interpolation from [a] toward [b] with progress [t]. *)
Definition lerp (a b t : JSNumber) : JSNumber := js_add a (js_mul (js_sub b a) t).

(** A list in ascending order of frame. *)
Definition sorted_by {A : Type} (key : A → Z) (l : list A) : Prop :=
  StronglySorted (λ a b, key a ≤ key b) l.

(** The invariant of the data model on a spring configuration that the
    resolver relies on: stiffness and mass are positive. *)
Definition validSpringConfig (c : SpringConfig) : Prop :=
  (0 < stiffness c)%Q ∧ (0 < mass c)%Q.

Definition validSpringConfigb (c : SpringConfig) : bool :=
  negb (Qle_bool (stiffness c) 0) && negb (Qle_bool (mass c) 0).


(** ** Sample inputs *)

(** A progress curve that rises linearly to 1 over ten frames. *)
Definition ramp_spring (a : SpringArgs) : JSNumber :=
  if bool_decide (sa_frame a < 10) then Num (inject_Z (sa_frame a) / 10) else Num 1.

(** A curve that agrees with [ramp_spring] on every valid configuration and
    stays at 0 on the others. *)
Definition ramp_spring' (a : SpringArgs) : JSNumber :=
  if validSpringConfigb (sa_config a) then ramp_spring a else Num 0.

(** A curve that agrees with [ramp_spring] on every valid configuration and
    is not a number on the others. *)
Definition nan_spring (a : SpringArgs) : JSNumber :=
  if validSpringConfigb (sa_config a) then ramp_spring a else NaN.

Definition zero_of_string (_ : string) : JSNumber := Num 0.

Definition sample_event (i : string) (f : Z) (a : string)
    (ps : list (string * ParamValue)) : TimelineEvent :=
  {| id := i; frame := f; componentId := "GlassPanel"; action := a;
     params := list_to_map ps; spring_cfg := None |}.

Definition sample_doc : TimelineData :=
  {| version := 1; fps := 60; durationFrames := 360; canvas := None;
     events :=
       [ sample_event "e1" 60 "Expand" [];
         sample_event "p2" 90 "SetPosition" [("x", PNum 100); ("y", PNum 200)];
         sample_event "c1" 240 "Collapse" [];
         sample_event "p1" 10 "SetPosition" [("x", PNum 0); ("y", PNum 0)];
         sample_event "p3" 50 "SetPosition" [("x", PNum 40)] ] |}.

Definition sample_cfg : VideoConfig :=
  {| vc_fps := 60; vc_width := 3840; vc_height := 536; vc_durationInFrames := 360 |}.

(** An expand event whose spring has stiffness 0. *)
Definition bad_spring_doc : TimelineData :=
  {| version := 1; fps := 60; durationFrames := 360; canvas := None;
     events :=
       [ {| id := "e1"; frame := 0; componentId := "GlassPanel"; action := "Expand";
            params := ∅;
            spring_cfg := Some {| stiffness := 0; damping := 24; mass := 1 |} |} ] |}.

(** An expand event whose spring has mass 0. *)
Definition zero_mass_event : TimelineEvent :=
  {| id := "e1"; frame := 0; componentId := "GlassPanel"; action := "Expand";
     params := ∅;
     spring_cfg := Some {| stiffness := 280; damping := 24; mass := 0 |} |}.

Definition zero_mass_doc : TimelineData :=
  {| version := 1; fps := 60; durationFrames := 360; canvas := None;
     events := [ zero_mass_event ] |}.

(** A collapse event and then an expand event, both placed before frame 0. *)
Definition before_zero_doc : TimelineData :=
  {| version := 1; fps := 60; durationFrames := 360; canvas := None;
     events := [ sample_event "c0" (-10) "Collapse" [];
                 sample_event "e0" (-5) "Expand" [] ] |}.


(** ** Design system (ui-base/src/config/designSystem.ts) *)

Record DesignSystemConfig := mkDesignSystemConfig {
  canvasWidth : Q;
  canvasHeight : Q;
  framerate : Q;
  noGoBorder : Q;
  barHeight : Q;
  sectionPadding : Q;
  columnsPerSection : Q;
  baseSpacing : Q;
  cornerRadiusSmall : Q;
  cornerRadiusMedium : Q;
  cornerRadiusLarge : Q
}.

Definition DESIGN_SYSTEM_DEFAULTS : DesignSystemConfig :=
  {| canvasWidth := 3840;
     canvasHeight := 536;
     framerate := 60;
     noGoBorder := 18;
     barHeight := 36;
     sectionPadding := 12;
     columnsPerSection := 12;
     baseSpacing := 12;
     cornerRadiusSmall := 3;
     cornerRadiusMedium := 6;
     cornerRadiusLarge := 9 |}.

(** ** Timeline documents as they arrive

    The code casts the parsed JSON to [TimelineData] without looking at it.
    The parsed document is therefore any JSON value.  Reading a field of
    [null] throws; every other value has its fields read, a field being any
    JavaScript value, [JUndefined] when it is absent (a number, a string, a
    boolean and an array read as an object without any of the fields).  The
    events are read by the code as an array of events: [raw_events] is
    [None] when [events.map] or its callback throws (the field is absent or
    is not an array, or an element is [null]) and the array otherwise, its
    elements being events of the data model. *)

#[warnings="-register-all"]
Inductive JSValue :=
| JUndefined
| JNull
| JBool (b : bool)
| JNum (q : Q)
| JStr (s : string)
| JObj (fields : gmap string JSValue).

(** The value in a condition: [if (v)]. *)
Definition truthy (v : JSValue) : bool :=
  match v with
  | JUndefined | JNull => false
  | JBool b => b
  | JNum q => negb (Qeq_bool q 0)
  | JStr s => negb (bool_decide (s = ""))
  | JObj _ => true
  end.

Record RawTimelineData := mkRawTimelineData {
  raw_version : JSValue;
  raw_fps : JSValue;
  raw_durationFrames : JSValue;
  raw_canvas : JSValue;
  raw_events : option (list TimelineEvent)
}.

Inductive ParsedDocument :=
| DocNull
| DocObject (d : RawTimelineData).

(** How a piece of code ends: it returns, or it throws. *)
Inductive Outcome := Returned | Threw.

(** *** remotion/Root.tsx *)

(** The props of [<Composition>]. *)
Record CompositionProps := mkCompositionProps {
  comp_id : string;
  comp_durationInFrames : JSValue;
  comp_fps : JSValue;
  comp_width : Q;
  comp_height : Q
}.

(** The props [Root] gives to [<Composition>], and [None] when it throws:
    [timelineData.durationFrames] on the document [null]. *)
Definition Root (timelineData : ParsedDocument) : option CompositionProps :=
  match timelineData with
  | DocNull => None
  | DocObject d =>
      Some {| comp_id := "Dashboard";
              comp_durationInFrames := raw_durationFrames d;
              comp_fps := raw_fps d;
              comp_width := canvasWidth DESIGN_SYSTEM_DEFAULTS;
              comp_height := canvasHeight DESIGN_SYSTEM_DEFAULTS |}
  end.

(** *** timeline-editor/src/App.tsx *)

Record TimelineRow := mkRow {
  row_id : string;
  row_frame : Z;
  row_componentId : string;
  row_action : string;
  row_params : gmap string ParamValue;
  row_spring : option SpringConfig;
  row_isNew : option bool
}.

Definition MAX_UNDO : nat := 50.

(** The state of the editor component (the registry and the selection, which
    none of the functions below reads or writes, are left out). *)
Record EditorState := mkEditorState {
  rows : list TimelineRow;
  undoStack : list (list TimelineRow);
  redoStack : list (list TimelineRow);
  isDirty : bool;
  ed_fps : JSValue;
  ed_durationFrames : JSValue;
  ed_canvas : JSValue
}.

(** The [useState] initial values. *)
Definition initialEditorState : EditorState :=
  {| rows := [];
     undoStack := [];
     redoStack := [];
     isDirty := false;
     ed_fps := JNum 60;
     ed_durationFrames := JNum 360;
     ed_canvas := JObj (<["width" := JNum 3840]> (<["height" := JNum 536]> ∅)) |}.

(** The object built from an event in the load callback. *)
Definition row_of_event (e : TimelineEvent) : TimelineRow :=
  {| row_id := id e;
     row_frame := frame e;
     row_componentId := componentId e;
     row_action := action e;
     row_params := params e;
     row_spring := spring_cfg e;
     row_isNew := None |}.

(** The callback of [fetch(API_URL).then(r => r.json()).then(...)]: the state
    after it, and whether it returned or threw (what it throws is caught by
    [.catch(console.error)]; the state updates made before stay).  On the
    document [null] the first statement, [setFps(data.fps)], throws. *)
Definition loadTimeline (st : EditorState) (parsed : ParsedDocument)
  : EditorState * Outcome :=
  match parsed with
  | DocNull => (st, Threw)
  | DocObject data =>
      let st1 := mkEditorState (rows st) (undoStack st) (redoStack st) (isDirty st)
                   (raw_fps data) (ed_durationFrames st) (ed_canvas st) in
      let st2 := mkEditorState (rows st1) (undoStack st1) (redoStack st1) (isDirty st1)
                   (ed_fps st1) (raw_durationFrames data) (ed_canvas st1) in
      let st3 := if truthy (raw_canvas data)
                 then mkEditorState (rows st2) (undoStack st2) (redoStack st2) (isDirty st2)
                        (ed_fps st2) (ed_durationFrames st2) (raw_canvas data)
                 else st2 in
      match raw_events data with
      | None => (st3, Threw)
      | Some evs =>
          (mkEditorState (sort_by row_frame (map row_of_event evs))
             (undoStack st3) (redoStack st3) (isDirty st3)
             (ed_fps st3) (ed_durationFrames st3) (ed_canvas st3),
           Returned)
      end
  end.

(** *** timeline-editor/vite.config.ts *)

Record Request := mkRequest {
  method : string;
  req_body : string
}.

Record Response := mkResponse {
  status : Z;
  headers : list (string * string);
  res_body : string
}.

(** What the middleware does with a request: it answers, or it calls [next()]. *)
Inductive Reply :=
| Respond (r : Response)
| Next.

Definition double_quote : string := String (Ascii.ascii_of_nat 34) EmptyString.

(** The body of the answer to a successful save, an object with the one
    field ok set to true. *)
Definition ok_body : string :=
  ("{" ++ double_quote ++ "ok" ++ double_quote ++ ":true}")%string.

Section TimelineApi.

(** [JSON.parse]: [None] when it throws. *)
Variable JSON_parse : string → option JSValue.
(** Whether [writeFileSync(TIMELINE_PATH, ...)] succeeds. *)
Variable writable : bool.

(** The middleware mounted on /api/timeline.  The state is the content of the
    file at TIMELINE_PATH, [None] when [readFileSync] throws. *)
Definition timelineApi (file : option string) (req : Request)
  : option string * Reply :=
  if bool_decide (method req = "OPTIONS") then
    (file,
     Respond {| status := 204;
                headers := [("Access-Control-Allow-Origin", "*");
                            ("Access-Control-Allow-Methods", "GET, POST, OPTIONS");
                            ("Access-Control-Allow-Headers", "Content-Type")];
                res_body := "" |})
  else if bool_decide (method req = "GET") then
    match file with
    | Some content =>
        (file, Respond {| status := 200;
                          headers := [("Content-Type", "application/json")];
                          res_body := content |})
    | None =>
        (file, Respond {| status := 500; headers := [];
                          res_body := "Failed to read timeline data" |})
    end
  else if bool_decide (method req = "POST") then
    match JSON_parse (req_body req) with
    | Some _ =>
        if writable
        then (Some (req_body req),
              Respond {| status := 200;
                         headers := [("Content-Type", "application/json")];
                         res_body := ok_body |})
        else (file, Respond {| status := 400; headers := []; res_body := "Invalid JSON" |})
    | None =>
        (file, Respond {| status := 400; headers := []; res_body := "Invalid JSON" |})
    end
  else (file, Next).

End TimelineApi.

(** A document is malformed when fps or durationFrames is not a positive
    number or the events are missing. *)
Definition positive_number (v : JSValue) : Prop :=
  match v with
  | JNum q => (0 < q)%Q
  | _ => False
  end.

Definition malformed (d : RawTimelineData) : Prop :=
  ¬ positive_number (raw_fps d) ∨ ¬ positive_number (raw_durationFrames d)
  ∨ raw_events d = None.

(** ** The mount effect of the rendering component (ui-base/src/App.tsx) *)

Inductive ShaderSource :=
| VertexShader
| FragmentBgShader
| FragmentBgVblurShader
| FragmentBgHblurShader
| FragmentMainShader.

Record Shader := mkShader {
  vertex : ShaderSource;
  fragment : ShaderSource
}.

(** One element of the pass list given to [MultiPassRenderer]; an absent
    [inputs] is the empty map and an absent [outputToScreen] is [false]. *)
Record PassConfig := mkPass {
  name : string;
  shader : Shader;
  inputs : gmap string string;
  outputToScreen : bool
}.

(** The array literal of the constructor call. *)
Definition rendererPasses : list PassConfig :=
  [ {| name := "bgPass";
       shader := {| vertex := VertexShader; fragment := FragmentBgShader |};
       inputs := ∅;
       outputToScreen := false |};
    {| name := "vBlurPass";
       shader := {| vertex := VertexShader; fragment := FragmentBgVblurShader |};
       inputs := {[ "u_prevPassTexture" := "bgPass" ]};
       outputToScreen := false |};
    {| name := "hBlurPass";
       shader := {| vertex := VertexShader; fragment := FragmentBgHblurShader |};
       inputs := {[ "u_prevPassTexture" := "vBlurPass" ]};
       outputToScreen := false |};
    {| name := "mainPass";
       shader := {| vertex := VertexShader; fragment := FragmentMainShader |};
       inputs := <[ "u_blurredBg" := "hBlurPass" ]> {[ "u_bg" := "bgPass" ]};
       outputToScreen := true |} ].

(** Modelled from the spec: the execution phase of the pass graph (the
    renderer class is in utils/GLUtils, outside the files at hand).  Per
    frame the passes are run in declared order; each pass binds the screen
    sink when it outputs to the screen and its own framebuffer otherwise,
    binds its input textures from the color attachments of the named
    producing passes, and draws.  [produced] lists the passes whose
    framebuffer has been drawn in this frame; a pass one of whose inputs has
    no producer yet cannot be run. *)
Inductive DrawTarget :=
| ScreenSink
| FrameBufferOf (pass : string).

Record Draw := mkDraw {
  draw_pass : string;
  draw_target : DrawTarget;
  draw_textures : gmap string string
}.

Fixpoint executePasses (produced : list string) (ps : list PassConfig)
  : option (list Draw) :=
  match ps with
  | [] => Some []
  | p :: rest =>
      if bool_decide (map_Forall (λ _ src, src ∈ produced) (inputs p))
      then
        let d := {| draw_pass := name p;
                    draw_target := if outputToScreen p then ScreenSink
                                   else FrameBufferOf (name p);
                    draw_textures := inputs p |} in
        cons d <$> executePasses (if outputToScreen p then produced
                                  else name p :: produced) rest
      else None
  end.

(** *** The readiness protocol *)

(** How a promise settles. *)
Inductive Settlement := Resolved | Rejected | Pending.

(** What the effect meets when it runs: whether [canvasRef.current] is set,
    whether [new MultiPassRenderer(...)] throws, how the promise of
    [loadTextureFromURL] settles, whether [doRender()] throws, and the
    [onReady] prop ([None] when absent, otherwise how a call of it ends). *)
Record MountEnv := mkMountEnv {
  canvasPresent : bool;
  constructorThrows : bool;
  textureLoad : Settlement;
  doRenderThrows : bool;
  onReadyProp : option Outcome
}.

(** The observable steps of the effect. *)
Inductive Effect :=
| ConstructRenderer
| StartTextureLoad
| StoreTexture
| Render
| RequestFrame
| CallOnReady.

#[global]
Instance Effect_eq_dec : EqDecision Effect.
Proof. solve_decision. Defined.

(** A piece of code as the steps it makes and how it ends. *)
Definition Run : Type := list Effect * Outcome.

(** [a; b] *)
Definition andThen (a b : Run) : Run :=
  match snd a with
  | Returned => ((fst a ++ fst b)%list, snd b)
  | Threw => a
  end.

(** [try { body } catch { handler }], and [promise.then(body).catch(handler)]
    for a resolved promise. *)
Definition tryCatch (body handler : Run) : Run :=
  match snd body with
  | Returned => body
  | Threw => ((fst body ++ fst handler)%list, snd handler)
  end.

(** [onReadyRef.current?.()] *)
Definition callOnReady (env : MountEnv) : Run :=
  match onReadyProp env with
  | None => ([], Returned)
  | Some o => ([CallOnReady], o)
  end.

Definition doRender (env : MountEnv) : Run :=
  ([Render], if doRenderThrows env then Threw else Returned).

(** [loadTextureFromURL(gl, landscapeBg).then(...).catch(...)], once the
    promise has settled. *)
Definition textureSettled (env : MountEnv) : Run :=
  match textureLoad env with
  | Resolved =>
      tryCatch (andThen ([StoreTexture], Returned)
                        (andThen (doRender env) (callOnReady env)))
               (callOnReady env)
  | Rejected => callOnReady env
  | Pending => ([], Returned)
  end.

(** The effect: its body, which runs when the component mounts, and the
    promise callbacks, which run later.  A body that throws takes the host
    component down; a later part that throws is an unhandled rejection. *)
Record MountRun := mkMountRun {
  body : Run;
  later : Run
}.

Definition mountEffect (env : MountEnv) : MountRun :=
  if negb (canvasPresent env) then {| body := ([], Returned); later := ([], Returned) |}
  else
    let construction : Run :=
      ([ConstructRenderer], if constructorThrows env then Threw else Returned) in
    match snd construction with
    | Threw =>
        {| body := tryCatch construction (callOnReady env); later := ([], Returned) |}
    | Returned =>
        {| body := andThen construction ([StartTextureLoad; RequestFrame], Returned);
           later := textureSettled env |}
    end.

(** The number of calls of [onReady] in a run of the effect. *)
Definition onReadyCalls (r : MountRun) : nat :=
  length (filter (λ e, e = CallOnReady) (fst (body r) ++ fst (later r))%list).

Definition crashes (r : MountRun) : Prop :=
  snd (body r) = Threw ∨ snd (later r) = Threw.

(** A document with no fps and a duration of 0 frames. *)
Definition malformed_doc : RawTimelineData :=
  {| raw_version := JNum 1; raw_fps := JUndefined; raw_durationFrames := JNum 0;
     raw_canvas := JUndefined; raw_events := Some [] |}.

(** The part of [JSON.parse] that reads the empty object. *)
Definition parse_empty_object (s : string) : option JSValue :=
  if bool_decide (s = "{}") then Some (JObj ∅) else None.

(** An event the resolver looks at: one of the panel, with one of the three
    actions it knows. *)
Definition relevant (e : TimelineEvent) : Prop :=
  componentId e = "GlassPanel"
  ∧ (action e = "Expand" ∨ action e = "Collapse" ∨ action e = "SetPosition").


(** ** The segments shown for the composition (DashboardComposition.tsx) *)

Record Segment := mkSegment {
  seg_name : string;
  seg_from : Z;
  seg_duration : Z
}.

(** The body of the [for] loop of [getSegments], over the events from index
    [i] on; the next frame is the frame of the next event, or
    [durationFrames] after the last one. *)
Fixpoint segmentsOf (sorted : list TimelineEvent) (durationFrames : Z) : list Segment :=
  match sorted with
  | [] => []
  | evt :: rest =>
      let nextFrame := match rest with
                       | next :: _ => frame next
                       | [] => durationFrames
                       end in
      let click := {| seg_name := "â†“ Click: " ++ action evt;
                      seg_from := frame evt; seg_duration := 2 |} in
      let stateStart := frame evt + 2 in
      let stateDuration := nextFrame - stateStart in
      (if bool_decide (stateDuration > 0)
       then [click;
             {| seg_name := if bool_decide (action evt = "Expand")
                            then "Expanded" else "Idle";
                seg_from := stateStart; seg_duration := stateDuration |}]
       else [click])
      ++ segmentsOf rest durationFrames
  end.

Definition getSegments (events : list TimelineEvent) (durationFrames : Z)
  : list Segment :=
  let sorted := sort_by frame events in
  match sorted with
  | [] => [ {| seg_name := "Idle"; seg_from := 0; seg_duration := durationFrames |} ]
  | first :: _ =>
      (if bool_decide (frame first > 0)
       then [ {| seg_name := "Idle"; seg_from := 0; seg_duration := frame first |} ]
       else [])
      ++ segmentsOf sorted durationFrames
  end.

(** The segments handed to the [<Sequence>] elements. *)
Definition compositionSegments (timelineData : TimelineData) : list Segment :=
  getSegments (filter (λ e, componentId e = "GlassPanel") (events timelineData))
              (durationFrames timelineData).

(** Segments that follow one another without gap or overlap from frame [a]
    to frame [b], each lasting at least one frame. *)
Inductive tiles : Z → Z → list Segment → Prop :=
| tiles_nil a : tiles a a []
| tiles_cons a b s rest :
    seg_from s = a → 0 < seg_duration s →
    tiles (a + seg_duration s) b rest →
    tiles a b (s :: rest).

(** *** The editing functions of the editor (timeline-editor/src/App.tsx) *)

(** [stack.slice(-n)]: the last [n] elements. *)
Definition slice_last {A : Type} (n : nat) (l : list A) : list A :=
  drop (length l - n) l.

(** [stack.slice(0, -1)]: all but the last element. *)
Definition slice_init {A : Type} (l : list A) : list A :=
  take (length l - 1) l.

Definition updateRows (newRows : list TimelineRow) (st : EditorState) : EditorState :=
  {| rows := sort_by row_frame newRows;
     undoStack := slice_last (MAX_UNDO - 1) (undoStack st) ++ [rows st];
     redoStack := [];
     isDirty := true;
     ed_fps := ed_fps st;
     ed_durationFrames := ed_durationFrames st;
     ed_canvas := ed_canvas st |}.

Definition undo (st : EditorState) : EditorState :=
  match last (undoStack st) with
  | None => st
  | Some prev =>
      {| rows := prev;
         undoStack := slice_init (undoStack st);
         redoStack := redoStack st ++ [rows st];
         isDirty := true;
         ed_fps := ed_fps st;
         ed_durationFrames := ed_durationFrames st;
         ed_canvas := ed_canvas st |}
  end.

Definition redo (st : EditorState) : EditorState :=
  match last (redoStack st) with
  | None => st
  | Some next =>
      {| rows := next;
         undoStack := slice_last (MAX_UNDO - 1) (undoStack st) ++ [rows st];
         redoStack := slice_init (redoStack st);
         isDirty := true;
         ed_fps := ed_fps st;
         ed_durationFrames := ed_durationFrames st;
         ed_canvas := ed_canvas st |}
  end.

(** The element of [events] built from a row in [save]: the row without its
    [_isNew] mark. *)
Definition event_of_row (r : TimelineRow) : TimelineEvent :=
  {| id := row_id r;
     frame := row_frame r;
     componentId := row_componentId r;
     action := row_action r;
     params := row_params r;
     spring_cfg := row_spring r |}.

(** The document [save] posts. *)
Definition saveDocument (st : EditorState) : RawTimelineData :=
  {| raw_version := JNum 1;
     raw_fps := ed_fps st;
     raw_durationFrames := ed_durationFrames st;
     raw_canvas := ed_canvas st;
     raw_events := Some (map event_of_row (rows st)) |}.

(** The state after [save], [ok] being [res.ok] of the answer ([false] also
    when the request fails). *)
Definition save (ok : bool) (st : EditorState) : EditorState :=
  {| rows := rows st;
     undoStack := undoStack st;
     redoStack := redoStack st;
     isDirty := if ok then false else isDirty st;
     ed_fps := ed_fps st;
     ed_durationFrames := ed_durationFrames st;
     ed_canvas := ed_canvas st |}.

Definition onRulerFrameChange (i : string) (f : Z) (st : EditorState) : EditorState :=
  updateRows
    (map (λ r, if bool_decide (row_id r = i)
               then mkRow (row_id r) f (row_componentId r) (row_action r)
                      (row_params r) (row_spring r) (row_isNew r)
               else r)
         (rows st))
    st.

Definition onFpsChange (v : Q) (st : EditorState) : EditorState :=
  {| rows := rows st; undoStack := undoStack st; redoStack := redoStack st;
     isDirty := true;
     ed_fps := JNum v;
     ed_durationFrames := ed_durationFrames st;
     ed_canvas := ed_canvas st |}.

Definition onDurationChange (v : Q) (st : EditorState) : EditorState :=
  {| rows := rows st; undoStack := undoStack st; redoStack := redoStack st;
     isDirty := true;
     ed_fps := ed_fps st;
     ed_durationFrames := JNum v;
     ed_canvas := ed_canvas st |}.

(** What the user can do in the editor, and the handler each gesture runs. *)
Inductive EditorAction :=
| DoUpdateRows (newRows : list TimelineRow)
| DoUndo
| DoRedo
| DoSave (ok : bool)
| DoRulerFrameChange (i : string) (f : Z)
| DoFpsChange (v : Q)
| DoDurationChange (v : Q)
| DoLoad (data : ParsedDocument).

Definition editorStep (st : EditorState) (a : EditorAction) : EditorState :=
  match a with
  | DoUpdateRows newRows => updateRows newRows st
  | DoUndo => undo st
  | DoRedo => redo st
  | DoSave ok => save ok st
  | DoRulerFrameChange i f => onRulerFrameChange i f st
  | DoFpsChange v => onFpsChange v st
  | DoDurationChange v => onDurationChange v st
  | DoLoad data => fst (loadTimeline st data)
  end.

(** The state after a sequence of gestures. *)
Definition editorRun (st : EditorState) (acts : list EditorAction) : EditorState :=
  fold_left editorStep acts st.

(** The rows and every snapshot kept for undo and redo are in ascending
    order of frame, and at most [MAX_UNDO] snapshots are kept for undo. *)
Definition editor_invariant (st : EditorState) : Prop :=
  sorted_by row_frame (rows st)
  ∧ Forall (sorted_by row_frame) (undoStack st)
  ∧ Forall (sorted_by row_frame) (redoStack st)
  ∧ (length (undoStack st) ≤ MAX_UNDO)%nat.

Definition sample_row (i : string) (f : Z) : TimelineRow :=
  {| row_id := i; row_frame := f; row_componentId := "GlassPanel";
     row_action := "Expand"; row_params := ∅; row_spring := None;
     row_isNew := Some true |}.

(** ** The panel of the rendering component (ui-base/src/App.tsx) *)

(** [Math.round]: the nearest integer, a tie going up. *)
Definition Math_round (x : Q) : Z := Qfloor (x + (1 # 2)).

Definition GRID_SIZE : Q := 60.

Definition snapToGrid (value gridSize : Q) : Q :=
  (inject_Z (Math_round (value / gridSize)) * gridSize)%Q.

Record LiquidGlassSettings := mkLiquidGlassSettings {
  width : Q;
  height : Q;
  radius : Q;
  roundness : Q;
  blurRadius : Q;
  refThickness : Q;
  refFactor : Q;
  refDispersion : Q;
  refFresnelRange : Q;
  refFresnelHardness : Q;
  refFresnelFactor : Q;
  glareRange : Q;
  glareHardness : Q;
  glareFactor : Q;
  glareConvergence : Q;
  glareOppositeFactor : Q;
  glareAngle : Q;
  shadowExpand : Q;
  shadowFactor : Q;
  tintR : Q;
  tintG : Q;
  tintB : Q;
  tintA : Q
}.

Definition LIQUID_GLASS_DEFAULTS : LiquidGlassSettings :=
  {| width := 259;
     height := 124;
     radius := 100;
     roundness := 3.2;
     blurRadius := 22;
     refThickness := 39;
     refFactor := 1.2;
     refDispersion := 28;
     refFresnelRange := 20;
     refFresnelHardness := 47;
     refFresnelFactor := 35;
     glareRange := 27;
     glareHardness := 10;
     glareFactor := 110;
     glareConvergence := 91;
     glareOppositeFactor := 100;
     glareAngle := 46;
     shadowExpand := 37;
     shadowFactor := 0;
     tintR := 255;
     tintG := 255;
     tintB := 255;
     tintA := 0 |}.

(** [{ width, height }] *)
Record Size := mkSize {
  size_width : Q;
  size_height : Q
}.

(** [{ x, y }] *)
Record Point := mkPoint {
  pt_x : Q;
  pt_y : Q
}.

Definition baseSize (settings : LiquidGlassSettings) : Size :=
  {| size_width := width settings; size_height := height settings |}.

Definition expandedSize (settings : LiquidGlassSettings) : Size :=
  {| size_width := inject_Z (Math_round (width settings * 1.8));
     size_height := inject_Z (Math_round (height settings * 1.8)) |}.

(** [Math.round] and the division by 2 on a number of the resolver. *)
Definition js_round (x : JSNumber) : JSNumber :=
  match x with
  | NaN => NaN
  | Num q => Num (inject_Z (Math_round q))
  end.

Definition js_half (x : JSNumber) : JSNumber :=
  match x with
  | NaN => NaN
  | Num q => Num (q / 2)
  end.

(** A position and a size computed from the timeline state. *)
Record PanelRect := mkPanelRect {
  rect_x : JSNumber;
  rect_y : JSNumber;
  rect_width : JSNumber;
  rect_height : JSNumber
}.

(** [timelinePanelWidth] and [timelinePanelHeight] with a timeline state. *)
Definition timelinePanelWidth (settings : LiquidGlassSettings) (ts : TimelineState)
  : JSNumber :=
  js_round (js_mul (Num (width settings)) (sizeMultiplier ts)).

Definition timelinePanelHeight (settings : LiquidGlassSettings) (ts : TimelineState)
  : JSNumber :=
  js_round (js_mul (Num (height settings)) (sizeMultiplier ts)).

(** The rectangle of the overlay element in render mode: [centeredX],
    [centeredY], [timelinePanelWidth] and [timelinePanelHeight]. *)
Definition overlayRect (settings : LiquidGlassSettings) (ts : TimelineState)
    (viewportSize : Size) : PanelRect :=
  {| rect_x := match panelX ts with
               | Some x => x
               | None => js_half (js_sub (Num (size_width viewportSize))
                                         (timelinePanelWidth settings ts))
               end;
     rect_y := match panelY ts with
               | Some y => y
               | None => js_half (js_sub (Num (size_height viewportSize))
                                         (timelinePanelHeight settings ts))
               end;
     rect_width := timelinePanelWidth settings ts;
     rect_height := timelinePanelHeight settings ts |}.

(** The layout effect of render mode: the [panelPos] and [panelSize] it
    stores for the shader, when there is a timeline state. *)
Definition layoutEffect (timelineState : option TimelineState)
    (settings : LiquidGlassSettings) (viewportSize : Size) : option PanelRect :=
  match timelineState with
  | None => None
  | Some ts =>
      let w := js_round (js_mul (Num (width settings)) (sizeMultiplier ts)) in
      let h := js_round (js_mul (Num (height settings)) (sizeMultiplier ts)) in
      let x := match panelX ts with
               | Some x => x
               | None => js_half (js_sub (Num (size_width viewportSize)) w)
               end in
      let y := match panelY ts with
               | Some y => y
               | None => js_half (js_sub (Num (size_height viewportSize)) h)
               end in
      Some {| rect_x := x; rect_y := y; rect_width := w; rect_height := h |}
  end.

(** *** Dragging and clicking the panel (live mode) *)

Record DragState := mkDragState {
  isDragging : bool;
  startX : Q;
  startY : Q;
  startPanelX : Q;
  startPanelY : Q;
  hasMoved : bool
}.

(** The part of the component the pointer handlers read and write:
    [dragState.current], [committedPos.current] and the [isExpanded] state. *)
Record PanelUI := mkPanelUI {
  dragState : DragState;
  committedPos : Point;
  ui_isExpanded : bool
}.

Definition handlePointerDown (clientX clientY : Q) (ui : PanelUI) : PanelUI :=
  {| dragState := {| isDragging := true;
                     startX := clientX;
                     startY := clientY;
                     startPanelX := pt_x (committedPos ui);
                     startPanelY := pt_y (committedPos ui);
                     hasMoved := false |};
     committedPos := committedPos ui;
     ui_isExpanded := ui_isExpanded ui |}.

(** The handler also moves the position spring to the dragged position at
    once; the spring is not part of [PanelUI]. *)
Definition handlePointerMove (clientX clientY : Q) (ui : PanelUI) : PanelUI :=
  if negb (isDragging (dragState ui)) then ui
  else
    let dx := (clientX - startX (dragState ui))%Q in
    let dy := (clientY - startY (dragState ui))%Q in
    if bool_decide (3 < Qabs dx)%Q || bool_decide (3 < Qabs dy)%Q
    then {| dragState := {| isDragging := isDragging (dragState ui);
                            startX := startX (dragState ui);
                            startY := startY (dragState ui);
                            startPanelX := startPanelX (dragState ui);
                            startPanelY := startPanelY (dragState ui);
                            hasMoved := true |};
            committedPos := committedPos ui;
            ui_isExpanded := ui_isExpanded ui |}
    else ui.

(** [current] and [currentSize] are the values read from the position and
    size springs. *)
Definition handlePointerUp (current : Point) (currentSize : Size) (viewportSize : Size)
    (ui : PanelUI) : PanelUI :=
  if negb (isDragging (dragState ui)) then ui
  else
    let wasDrag := hasMoved (dragState ui) in
    let released := {| isDragging := false;
                       startX := startX (dragState ui);
                       startY := startY (dragState ui);
                       startPanelX := startPanelX (dragState ui);
                       startPanelY := startPanelY (dragState ui);
                       hasMoved := false |} in
    if wasDrag then
      let snappedX := snapToGrid (pt_x current) GRID_SIZE in
      let snappedY := snapToGrid (pt_y current) GRID_SIZE in
      let clampedX :=
        Qmax 0 (Qmin snappedX (size_width viewportSize - size_width currentSize)) in
      let clampedY :=
        Qmax 0 (Qmin snappedY (size_height viewportSize - size_height currentSize)) in
      {| dragState := released;
         committedPos := {| pt_x := clampedX; pt_y := clampedY |};
         ui_isExpanded := ui_isExpanded ui |}
    else
      {| dragState := released;
         committedPos := committedPos ui;
         ui_isExpanded := negb (ui_isExpanded ui) |}.

(** A gesture: the pointer goes down at [down], moves through [moves], and
    is released. *)
Definition gesture (down : Point) (moves : list Point) (current : Point)
    (currentSize viewportSize : Size) (ui : PanelUI) : PanelUI :=
  handlePointerUp current currentSize viewportSize
    (fold_left (λ u m, handlePointerMove (pt_x m) (pt_y m) u) moves
               (handlePointerDown (pt_x down) (pt_y down) ui)).

(** The state the component starts with. *)
Definition initialPanelUI : PanelUI :=
  {| dragState := {| isDragging := false; startX := 0; startY := 0;
                     startPanelX := 0; startPanelY := 0; hasMoved := false |};
     committedPos := {| pt_x := GRID_SIZE * 2; pt_y := GRID_SIZE |};
     ui_isExpanded := false |}.

(** A pointer position more than three pixels away from [down] along one of
    the axes. *)
Definition beyond (down m : Point) : Prop :=
  (3 < Qabs (pt_x m - pt_x down))%Q ∨ (3 < Qabs (pt_y m - pt_y down))%Q.

(** ** The colour of a component (timeline-editor, TimelineTable.tsx) *)

Definition COLORS : list string :=
  ["#2563EB"; "#D946EF"; "#F59E0B"; "#10B981"; "#EF4444"; "#8B5CF6"].

(** The conversion of a number to a signed 32-bit integer that [<<] and [|]
    apply to their operands and to their result. *)
Definition ToInt32 (z : Z) : Z := (z + 2 ^ 31) mod 2 ^ 32 - 2 ^ 31.

(** One turn of the loop: [hash = ((hash << 5) - hash) + c; hash |= 0]. *)
Definition hashStep (hash c : Z) : Z :=
  ToInt32 (ToInt32 (Z.shiftl (ToInt32 hash) 5) - hash + c).

(** The hash of an identifier given by its UTF-16 code units, as
    [charCodeAt] returns them. *)
Definition componentHash (codes : list Z) : Z := fold_left hashStep codes 0.

Definition componentColorIndex (codes : list Z) : Z :=
  Z.rem (Z.abs (componentHash codes)) (Z.of_nat (length COLORS)).

(** [COLORS[Math.abs(hash) % COLORS.length]]; [None] stands for [undefined]. *)
Definition componentColor (codes : list Z) : option string :=
  COLORS !! Z.to_nat (componentColorIndex codes).

(** ** The orbital panels (ui-base, OrbitalSystem.tsx) *)

Record Panel := mkPanel {
  panel_id : Z;
  order : Z;
  sizeIndex : Z
}.

(** [{ w, h }] *)
Definition PANEL_SIZES : list (Q * Q) := [(128, 61); (180, 86); (240, 115)]%Q.

(** [Array.from({ length: 8 }, (_, i) => ({ id: i + 1, order: i, sizeIndex: 1 }))] *)
Definition initialPanels : list Panel :=
  map (λ i, {| panel_id := Z.of_nat i + 1; order := Z.of_nat i; sizeIndex := 1 |})
      (seq 0 8).

(** What [onPointerUp] does to the panels when the pointer has not moved:
    the clicked panel takes the next size. *)
Definition clickPanel (i : Z) (panels : list Panel) : list Panel :=
  map (λ w, if bool_decide (panel_id w = i)
            then {| panel_id := panel_id w; order := order w;
                    sizeIndex := Z.rem (sizeIndex w + 1) (Z.of_nat (length PANEL_SIZES)) |}
            else w)
      panels.


(** The hash that multiplies by 31 and adds the next code unit. *)
Definition polyHash (codes : list Z) : Z := fold_left (λ h c, 31 * h + c) codes 0.


(** ** Moving a row in the table (timeline-editor, TimelineTable.tsx) *)





(** A panel that expands at frame 60 and collapses at frame 240, with an
    event of another component in between. *)
Definition expand_collapse_doc : TimelineData :=
  {| version := 1; fps := 60; durationFrames := 360; canvas := None;
     events :=
       [ sample_event "c1" 240 "Collapse" [];
         {| id := "o1"; frame := 61; componentId := "Other"; action := "Blink";
            params := ∅; spring_cfg := None |};
         sample_event "e1" 60 "Expand" [] ] |}.

(** ** The shape handed to the shaders (ui-base/src/App.tsx, [doRender]) *)

Record CanvasInfo := mkCanvasInfo {
  ci_width : Q;
  ci_height : Q;
  ci_dpr : Q
}.

(** The uniforms [u_mouse], [u_shapeWidth], [u_shapeHeight] and
    [u_shapeRadius]. *)
Record ShapeUniforms := mkShapeUniforms {
  u_mouse : Point;
  u_shapeWidth : Q;
  u_shapeHeight : Q;
  u_shapeRadius : Q
}.

(** The part of [doRender] that computes the shape, from the canvas, the
    settings, the panel rectangle and the speed of the mouse spring;
    [isOrbital] tells whether there are orbital panels. *)
Definition shapeUniforms (isOrbital : bool) (cInfo : CanvasInfo)
    (s : LiquidGlassSettings) (pPos : Point) (pSize : Size) (mouseSpringSpeed : Point)
  : ShapeUniforms :=
  if isOrbital then
    {| u_mouse := {| pt_x := (ci_width cInfo * ci_dpr cInfo) / 2;
                     pt_y := (ci_height cInfo * ci_dpr cInfo) / 2 |};
       u_shapeWidth := width s;
       u_shapeHeight := height s;
       u_shapeRadius := (Qmin (width s) (height s) / 2) * (radius s / 100) |}
  else
    let springSizeFactor := 8%Q in
    let shapeW := (size_width pSize
                   + Qabs (pt_x mouseSpringSpeed) * size_width pSize * springSizeFactor / 100)%Q in
    let shapeH := (size_height pSize
                   + Qabs (pt_y mouseSpringSpeed) * size_height pSize * springSizeFactor / 100)%Q in
    {| u_mouse := {| pt_x := (pt_x pPos + size_width pSize / 2) * ci_dpr cInfo;
                     pt_y := (ci_height cInfo - pt_y pPos - size_height pSize / 2)
                             * ci_dpr cInfo |};
       u_shapeWidth := shapeW;
       u_shapeHeight := shapeH;
       u_shapeRadius := (Qmin shapeW shapeH / 2) * (radius s / 100) |}.

(** * Properties *)

(** ** Arithmetic of sums and clamping *)

Lemma fold_js_add_num {A} (f : A → JSNumber) (p : A → Q) (l : list A) (a : Q) :
  (∀ e, e ∈ l → f e = Num (p e)) →
  fold_left (λ s e, js_add s (f e)) l (Num a) = Num (fold_left Qplus (map p l) a).
Proof.
  revert a. induction l as [|x l IH]; intros a H; simpl; [reflexivity|].
  rewrite (H x (list_elem_of_here _ _)). simpl. apply IH.
  intros e He. apply H, list_elem_of_further, He.
Qed.

Lemma fold_js_add_NaN_start {A} (f : A → JSNumber) (l : list A) :
  fold_left (λ s e, js_add s (f e)) l NaN = NaN.
Proof. induction l as [|x l IH]; simpl; [reflexivity | exact IH]. Qed.

Lemma fold_js_add_NaN {A} (f : A → JSNumber) (l : list A) (a : JSNumber) (e : A) :
  e ∈ l → f e = NaN → fold_left (λ s e, js_add s (f e)) l a = NaN.
Proof.
  revert a. induction l as [|x l IH]; intros a He Hf.
  - apply elem_of_nil in He. destruct He.
  - simpl. apply elem_of_cons in He as [->|He].
    + rewrite Hf. destruct a; simpl; apply fold_js_add_NaN_start.
    + apply IH; assumption.
Qed.

Lemma clamp_bounds (x : Q) : (0 <= Qmax 0 (Qmin 1 x) <= 1)%Q.
Proof.
  split.
  - apply Q.le_max_l.
  - apply Q.max_lub; [discriminate | apply Q.le_min_l].
Qed.

Lemma clamp_unit_spec (x : Q) : (Qmax 0 (Qmin 1 x) == clamp_unit x)%Q.
Proof.
  unfold clamp_unit.
  destruct (decide (x < 0)%Q) as [H0|H0]; [|destruct (decide (1 < x)%Q) as [H1|H1]].
  - rewrite Q.min_r by lra. apply Q.max_l. lra.
  - rewrite Q.min_l by lra. apply Q.max_r. lra.
  - apply Qnot_lt_le in H0, H1. rewrite Q.min_r by exact H1. apply Q.max_r. exact H0.
Qed.

Lemma clamp_unit_compat (x y : Q) : (x == y)%Q → (clamp_unit x == clamp_unit y)%Q.
Proof.
  intros H. rewrite <- !clamp_unit_spec.
  apply Q.max_compat; [reflexivity|]. apply Q.min_compat; [reflexivity | exact H].
Qed.

(** ** The fired events of a class *)

Lemma class_events_filter (doc : TimelineData) (t : Z) (cls : string) :
  filter (λ e, action e = cls) (glassEvents doc t) = fired_events doc t cls.
Proof.
  unfold glassEvents, fired_events. rewrite list_filter_filter.
  apply list_filter_iff. intros e. tauto.
Qed.

Lemma elem_of_fired_events (doc : TimelineData) (t : Z) (cls : string) (e : TimelineEvent) :
  e ∈ fired_events doc t cls ↔ fired doc t cls e.
Proof. unfold fired_events, fired. rewrite list_elem_of_filter. tauto. Qed.

Lemma elem_of_class_events (doc : TimelineData) (t : Z) (cls : string) (e : TimelineEvent) :
  e ∈ filter (λ e, action e = cls) (glassEvents doc t) ↔ fired doc t cls e.
Proof. rewrite class_events_filter. apply elem_of_fired_events. Qed.

(** The call of [spring] the resolver makes for an event is the call at the
    time elapsed since the event, with the event's configuration. *)
Lemma progress_at_springArgs (spring : SpringArgs → JSNumber) (fps t : Z)
    (e : TimelineEvent) :
  spring (springArgs fps t e) = progress_at spring fps t e.
Proof. unfold springArgs, progress_at, DEFAULT_SPRING. destruct (spring_cfg e); reflexivity. Qed.

Lemma class_sum_num (spring : SpringArgs → JSNumber) (doc : TimelineData) (fps t : Z)
    (cls : string) (p : TimelineEvent → Q) :
  (∀ e, e ∈ fired_events doc t cls → progress_at spring fps t e = Num (p e)) →
  fold_left (λ sum e, js_add sum (spring (springArgs fps t e)))
            (filter (λ e, action e = cls) (glassEvents doc t)) (Num 0)
  = Num (Qsum (map p (fired_events doc t cls))).
Proof.
  intros H. rewrite class_events_filter. apply fold_js_add_num.
  intros e He. rewrite progress_at_springArgs. apply H, He.
Qed.

Lemma class_sum_NaN (spring : SpringArgs → JSNumber) (doc : TimelineData) (fps t : Z)
    (cls : string) (e : TimelineEvent) :
  e ∈ fired_events doc t cls → progress_at spring fps t e = NaN →
  fold_left (λ sum e, js_add sum (spring (springArgs fps t e)))
            (filter (λ e, action e = cls) (glassEvents doc t)) (Num 0)
  = NaN.
Proof.
  intros He Hn. rewrite class_events_filter.
  apply (fold_js_add_NaN _ _ _ e He). rewrite progress_at_springArgs. exact Hn.
Qed.

Lemma netExpansion_num (spring : SpringArgs → JSNumber) (doc : TimelineData)
    (cfg : VideoConfig) (t : Z) (p : TimelineEvent → Q) :
  (∀ e, e ∈ (fired_events doc t "Expand" ++ fired_events doc t "Collapse")%list →
        progress_at spring (vc_fps cfg) t e = Num (p e)) →
  netExpansion spring doc cfg t
  = Num (Qmax 0 (Qmin 1 (Qsum (map p (fired_events doc t "Expand"))
                         - Qsum (map p (fired_events doc t "Collapse"))))).
Proof.
  intros H. unfold netExpansion, expandSum, collapseSum, expandEvents, collapseEvents.
  rewrite (class_sum_num spring doc (vc_fps cfg) t "Expand" p),
          (class_sum_num spring doc (vc_fps cfg) t "Collapse" p).
  - reflexivity.
  - intros e He. apply H, elem_of_app. right. exact He.
  - intros e He. apply H, elem_of_app. left. exact He.
Qed.

Lemma netExpansion_NaN (spring : SpringArgs → JSNumber) (doc : TimelineData)
    (cfg : VideoConfig) (t : Z) (e : TimelineEvent) :
  e ∈ (fired_events doc t "Expand" ++ fired_events doc t "Collapse")%list →
  progress_at spring (vc_fps cfg) t e = NaN →
  netExpansion spring doc cfg t = NaN.
Proof.
  intros He Hn. unfold netExpansion, expandSum, collapseSum, expandEvents, collapseEvents.
  apply elem_of_app in He as [He|He].
  - rewrite (class_sum_NaN spring doc (vc_fps cfg) t "Expand" e He Hn). reflexivity.
  - rewrite (class_sum_NaN spring doc (vc_fps cfg) t "Collapse" e He Hn).
    destruct (fold_left _ _ _); reflexivity.
Qed.

(** ** The accumulator *)

(** The claim that the accumulated progress always lies in [0, 1] fails:
    nothing keeps a spring configuration with mass 0 from reaching [spring],
    and when [spring] answers NaN for it the clamp
    [Math.max(0, Math.min(1, NaN))] is NaN. *)
Lemma C1_clamp_lets_NaN_through_counterexample :
  fired zero_mass_doc 30 "Expand" zero_mass_event
  ∧ progress_at nan_spring 60 30 zero_mass_event = NaN
  ∧ netExpansion nan_spring zero_mass_doc sample_cfg 30 = NaN
  ∧ ¬ (∃ n, netExpansion nan_spring zero_mass_doc sample_cfg 30 = Num n
            ∧ (0 <= n <= 1)%Q).
Proof.
  split; [|split; [|split]].
  - split; [apply list_elem_of_here|]. split; [reflexivity|]. split; [reflexivity|].
    simpl. lia.
  - reflexivity.
  - reflexivity.
  - intros (n & Hn & _). discriminate Hn.
Qed.

(** C1, as the code has it: when the spring progress of every fired expand
    and collapse event is a number, the accumulated expansion progress is
    the sum of the progresses of the fired expand events minus the sum of
    those of the fired collapse events (each sum taken from 0 in document
    order, each progress being the spring curve at the time elapsed since
    the event), clamped to [0, 1], and so lies in [0, 1] however many events
    contribute and however far a curve overshoots.  When one of these
    progresses is NaN, the accumulated progress is NaN. *)
Theorem C1_accumulated_progress (spring : SpringArgs → JSNumber) (doc : TimelineData)
    (cfg : VideoConfig) (t : Z) :
  let E := fired_events doc t "Expand" in
  let C := fired_events doc t "Collapse" in
  (∀ p : TimelineEvent → Q,
     (∀ e, e ∈ (E ++ C)%list → progress_at spring (vc_fps cfg) t e = Num (p e)) →
     ∃ n, netExpansion spring doc cfg t = Num n
          ∧ (n == clamp_unit (Qsum (map p E) - Qsum (map p C)))%Q
          ∧ (0 <= n <= 1)%Q)
  ∧ (∀ e, e ∈ (E ++ C)%list → progress_at spring (vc_fps cfg) t e = NaN →
          netExpansion spring doc cfg t = NaN).
Proof.
  intros E C. split.
  - intros p Hp. eexists. split; [apply (netExpansion_num spring doc cfg t p Hp)|].
    split; [apply clamp_unit_spec | apply clamp_bounds].
  - intros e He Hn. exact (netExpansion_NaN spring doc cfg t e He Hn).
Qed.

Lemma C1_accumulated_progress_witness :
  ∃ n, netExpansion ramp_spring sample_doc sample_cfg 64 = Num n
       ∧ (n == clamp_unit (Qsum [4 # 10] - Qsum []))%Q
       ∧ (0 <= n <= 1)%Q.
Proof.
  apply (proj1 (C1_accumulated_progress ramp_spring sample_doc sample_cfg 64)
           (λ e, inject_Z (64 - frame e) / 10)%Q).
  intros e He.
  assert (Hl : (fired_events sample_doc 64 "Expand"
                ++ fired_events sample_doc 64 "Collapse")%list
               = [sample_event "e1" 60 "Expand" []]) by reflexivity.
  rewrite Hl in He. apply list_elem_of_singleton in He. subst e. reflexivity.
Defined.

(** The claim that the size multiplier always lies in [1, 1.8] fails for the
    same reason: for the document whose expand event has a spring of mass 0,
    and a [spring] that answers NaN for it, the size multiplier is NaN. *)
Lemma C10_sizeMultiplier_NaN_counterexample :
  sizeMultiplier (DashboardComposition nan_spring zero_of_string zero_mass_doc
                    sample_cfg 30) = NaN
  ∧ ¬ (∃ m, sizeMultiplier (DashboardComposition nan_spring zero_of_string
                              zero_mass_doc sample_cfg 30) = Num m
            ∧ (1 <= m <= 1.8)%Q).
Proof.
  split; [reflexivity|]. intros (m & Hm & _). discriminate Hm.
Qed.

(** C10, as the code has it: when the spring progress of every fired expand
    and collapse event is a number, the size multiplier handed to the
    rendering layer is 1 plus 0.8 times the accumulated progress clamped to
    [0, 1], and lies in [1, 1.8]; when one of these progresses is NaN, the
    size multiplier is NaN. *)
Theorem C10_sizeMultiplier_range (spring : SpringArgs → JSNumber)
    (StringToNumber : string → JSNumber) (doc : TimelineData) (cfg : VideoConfig) (t : Z) :
  let E := fired_events doc t "Expand" in
  let C := fired_events doc t "Collapse" in
  let s := sizeMultiplier (DashboardComposition spring StringToNumber doc cfg t) in
  (∀ p : TimelineEvent → Q,
     (∀ e, e ∈ (E ++ C)%list → progress_at spring (vc_fps cfg) t e = Num (p e)) →
     ∃ m, s = Num m
          ∧ (m == 1 + clamp_unit (Qsum (map p E) - Qsum (map p C)) * (8 # 10))%Q
          ∧ (1 <= m <= 1.8)%Q)
  ∧ (∀ e, e ∈ (E ++ C)%list → progress_at spring (vc_fps cfg) t e = NaN → s = NaN).
Proof.
  intros E C s. subst s. cbn [sizeMultiplier DashboardComposition].
  unfold sizeMultiplier_of. split.
  - intros p Hp. rewrite (netExpansion_num spring doc cfg t p Hp). fold E C.
    pose proof (clamp_bounds (Qsum (map p E) - Qsum (map p C))) as [H0 H1].
    pose proof (clamp_unit_spec (Qsum (map p E) - Qsum (map p C))) as Hc.
    set (n := Qmax 0 (Qmin 1 (Qsum (map p E) - Qsum (map p C)))) in *.
    eexists. split; [reflexivity|]. split; [rewrite <- Hc; reflexivity|].
    split; lra.
  - intros e He Hn. rewrite (netExpansion_NaN spring doc cfg t e He Hn). reflexivity.
Qed.

Lemma C10_sizeMultiplier_range_witness :
  ∃ m, sizeMultiplier (DashboardComposition ramp_spring zero_of_string sample_doc
                         sample_cfg 64) = Num m
       ∧ (m == 1 + clamp_unit (Qsum [4 # 10] - Qsum []) * (8 # 10))%Q
       ∧ (1 <= m <= 1.8)%Q.
Proof.
  apply (proj1 (C10_sizeMultiplier_range ramp_spring zero_of_string sample_doc
                  sample_cfg 64)
           (λ e, inject_Z (64 - frame e) / 10)%Q).
  intros e He.
  assert (Hl : (fired_events sample_doc 64 "Expand"
                ++ fired_events sample_doc 64 "Collapse")%list
               = [sample_event "e1" 60 "Expand" []]) by reflexivity.
  rewrite Hl in He. apply list_elem_of_singleton in He. subst e. reflexivity.
Defined.

(** The sum the resolver takes over the fired events of a class is the sum
    of the contributions of all the events of the document. *)
Lemma class_sum_contributions (spring : SpringArgs → JSNumber) (doc : TimelineData)
    (fps t : Z) (cls : string) :
  same_number
    (fold_left (λ sum e, js_add sum (spring (springArgs fps t e)))
               (filter (λ e, action e = cls) (glassEvents doc t)) (Num 0))
    (fold_left (λ sum e, js_add sum (contribution spring fps t cls e))
               (events doc) (Num 0)).
Proof.
  rewrite class_events_filter. unfold fired_events.
  assert (H : ∀ a b, same_number a b →
    same_number
      (fold_left (λ sum e, js_add sum (spring (springArgs fps t e)))
                 (filter (λ e, componentId e = "GlassPanel" ∧ action e = cls ∧ frame e ≤ t)
                         (events doc)) a)
      (fold_left (λ sum e, js_add sum (contribution spring fps t cls e))
                 (events doc) b)).
  { induction (events doc) as [|x l IH]; intros a b Hab; [exact Hab|].
    rewrite filter_cons. cbn [fold_left]. unfold contribution at 2.
    case_decide as Hx.
    - rewrite bool_decide_eq_true_2 by exact Hx. cbn [fold_left]. apply IH.
      rewrite progress_at_springArgs.
      destruct a as [|qa], b as [|qb], (progress_at spring fps t x) as [|q];
        simpl in *; try exact I; try contradiction. rewrite Hab. reflexivity.
    - rewrite bool_decide_eq_false_2 by exact Hx. apply IH.
      destruct a as [|qa], b as [|qb]; simpl in *; try exact I; try contradiction.
      rewrite Hab. ring. }
  apply H. simpl. reflexivity.
Qed.

(** C5: an event whose frame lies after the query frame adds exactly 0 and
    cannot change the accumulated progress; when no event has been reached,
    the accumulated progress is exactly 0. *)
Theorem C5_no_lookahead (spring : SpringArgs → JSNumber) (doc : TimelineData)
    (cfg : VideoConfig) (t : Z) :
  (∀ cls e, t < frame e → contribution spring (vc_fps cfg) t cls e = Num 0)
  ∧ (∀ evs, filter (λ e, frame e ≤ t) evs = filter (λ e, frame e ≤ t) (events doc) →
       netExpansion spring (with_events doc evs) cfg t = netExpansion spring doc cfg t)
  ∧ ((∀ e, e ∈ events doc → t < frame e) → netExpansion spring doc cfg t = Num 0).
Proof.
  assert (Hg : ∀ d, glassEvents d t
                 = filter (λ e, componentId e = "GlassPanel")
                          (filter (λ e, frame e ≤ t) (events d))).
  { intros d. unfold glassEvents. rewrite list_filter_filter. reflexivity. }
  split; [|split].
  - intros cls e He. unfold contribution. case_bool_decide; [lia | reflexivity].
  - intros evs Hevs.
    unfold netExpansion, expandSum, collapseSum, expandEvents, collapseEvents.
    rewrite !Hg. simpl. rewrite Hevs. reflexivity.
  - intros Hall.
    unfold netExpansion, expandSum, collapseSum, expandEvents, collapseEvents.
    rewrite Hg.
    assert (Hnil : filter (λ e, frame e ≤ t) (events doc) = []).
    { induction (events doc) as [|e evs IH]; [reflexivity|].
      rewrite filter_cons. case_decide.
      - specialize (Hall e (list_elem_of_here _ _)). lia.
      - apply IH. intros e' He'. apply Hall, list_elem_of_further, He'. }
    rewrite Hnil. reflexivity.
Qed.

Lemma C5_no_lookahead_witness :
  netExpansion ramp_spring sample_doc sample_cfg 5 = Num 0
  ∧ netExpansion ramp_spring
      (with_events sample_doc (sample_event "e1" 60 "Expand" [] :: events sample_doc))
      sample_cfg 20
    = netExpansion ramp_spring sample_doc sample_cfg 20.
Proof.
  pose proof (C5_no_lookahead ramp_spring sample_doc sample_cfg 5) as (_ & _ & H5).
  pose proof (C5_no_lookahead ramp_spring sample_doc sample_cfg 20) as (_ & H20 & _).
  split.
  - apply H5. intros e He.
    repeat (apply elem_of_cons in He as [->|He]); [reflexivity..|].
    apply elem_of_nil in He. destruct He.
  - apply H20. reflexivity.
Defined.

(** ** The expanded flag *)

Lemma fold_max_spec (l : list TimelineEvent) (a : Z) :
  let m := fold_left (λ max e, Z.max max (frame e)) l a in
  a ≤ m ∧ (∀ e, e ∈ l → frame e ≤ m) ∧ (m = a ∨ ∃ e, e ∈ l ∧ frame e = m).
Proof.
  revert a. induction l as [|x l IH]; intros a; simpl.
  - split; [lia|]. split; [|left; reflexivity].
    intros e He. apply elem_of_nil in He. destruct He.
  - destruct (IH (Z.max a (frame x))) as (H1 & H2 & H3).
    split; [lia|]. split.
    + intros e He. apply elem_of_cons in He as [->|He]; [lia | auto].
    + destruct H3 as [H3|(e & He & H3)].
      * destruct (Z.max_spec a (frame x)) as [[_ Hm]|[_ Hm]].
        -- right. exists x. split; [apply list_elem_of_here | lia].
        -- left. lia.
      * right. exists e. split; [apply list_elem_of_further; exact He | exact H3].
Qed.

(** C2: on a document whose frames are non-negative, the flag is true exactly
    when some fired expand event lies strictly after every fired collapse
    event; it is false when no expand event has fired, and false when the
    latest expand and the latest collapse event share a frame. *)
Theorem C2_isExpanded (doc : TimelineData) (t : Z)
    (Hframes : Forall (λ e, 0 ≤ frame e) (events doc)) :
  (isExpanded_of doc t = true
   ↔ ∃ e, fired doc t "Expand" e ∧ ∀ c, fired doc t "Collapse" c → frame c < frame e)
  ∧ ((∀ e, ¬ fired doc t "Expand" e) → isExpanded_of doc t = false)
  ∧ (∀ e c, fired doc t "Expand" e → fired doc t "Collapse" c →
       (∀ e', fired doc t "Expand" e' → frame e' ≤ frame e) →
       frame e ≤ frame c →
       isExpanded_of doc t = false).
Proof.
  unfold isExpanded_of, lastExpandFrame, lastCollapseFrame, expandEvents, collapseEvents.
  destruct (fold_max_spec (filter (λ e, action e = "Expand") (glassEvents doc t)) (-1))
    as (E1 & E2 & E3).
  destruct (fold_max_spec (filter (λ e, action e = "Collapse") (glassEvents doc t)) (-1))
    as (K1 & K2 & K3).
  cbv zeta in *.
  set (me := fold_left _ (filter (λ e, action e = "Expand") _) _) in *.
  set (mc := fold_left _ (filter (λ e, action e = "Collapse") _) _) in *.
  assert (Hnn : ∀ cls e, fired doc t cls e → 0 ≤ frame e).
  { intros cls e (Hin & _). rewrite Forall_forall in Hframes. auto. }
  assert (Hiff : me > mc
    ↔ ∃ e, fired doc t "Expand" e ∧ ∀ c, fired doc t "Collapse" c → frame c < frame e).
  { split.
    - intros Hgt. destruct E3 as [E3|(e & He & E3)]; [lia|].
      exists e. split; [apply elem_of_class_events; exact He|].
      intros c Hc. apply elem_of_class_events in Hc. specialize (K2 c Hc). lia.
    - intros (e & He & Hlt). pose proof (Hnn _ _ He) as H0.
      apply elem_of_class_events in He. specialize (E2 e He).
      destruct K3 as [K3|(c & Hc & K3)]; [lia|].
      apply elem_of_class_events in Hc. specialize (Hlt c Hc). lia. }
  split; [|split].
  - rewrite bool_decide_eq_true. exact Hiff.
  - intros Hno. apply bool_decide_eq_false. rewrite Hiff.
    intros (e & He & _). exact (Hno e He).
  - intros e c He Hc Hlast Hle. apply bool_decide_eq_false. rewrite Hiff.
    intros (e' & He' & Hlt). specialize (Hlast e' He'). specialize (Hlt c Hc). lia.
Qed.

Lemma C2_isExpanded_witness :
  Forall (λ e, 0 ≤ frame e) (events sample_doc)
  ∧ (isExpanded_of sample_doc 150 = true
     ↔ ∃ e, fired sample_doc 150 "Expand" e
            ∧ ∀ c, fired sample_doc 150 "Collapse" c → frame c < frame e).
Proof.
  assert (H : Forall (λ e, 0 ≤ frame e) (events sample_doc)).
  { repeat constructor; simpl; lia. }
  split; [exact H | exact (proj1 (C2_isExpanded sample_doc 150 H))].
Defined.

(** The claim that the flag is true whenever the latest fired expand event
    lies strictly after the latest fired collapse event fails on a document
    with events before frame 0: [before_zero_doc] collapses at frame -10 and
    expands at frame -5, and at frame 0 the flag is false, both latest
    frames being folded from -1. *)
Lemma C2_negative_frames_counterexample :
  (∃ e, fired before_zero_doc 0 "Expand" e
        ∧ (∀ e', fired before_zero_doc 0 "Expand" e' → frame e' ≤ frame e)
        ∧ ∀ c, fired before_zero_doc 0 "Collapse" c → frame c < frame e)
  ∧ isExpanded_of before_zero_doc 0 = false.
Proof.
  split; [|reflexivity].
  exists (sample_event "e0" (-5) "Expand" []).
  split; [|split].
  - split; [apply list_elem_of_further, list_elem_of_here|].
    split; [reflexivity|]. split; [reflexivity | simpl; lia].
  - intros e' (He' & _ & Ha & _). simpl in He'.
    repeat (apply elem_of_cons in He' as [->|He']); [discriminate Ha | simpl; lia|].
    apply elem_of_nil in He'. destruct He'.
  - intros c (Hc & _ & Ha & _). simpl in Hc.
    repeat (apply elem_of_cons in Hc as [->|Hc]); [simpl; lia | discriminate Ha|].
    apply elem_of_nil in Hc. destruct Hc.
Qed.

(** ** Sorting by frame *)

Section SortBy.

Context {A : Type} (key : A → Z).

Lemma insert_by_perm (e : A) (l : list A) : insert_by key e l ≡ₚ e :: l.
Proof.
  induction l as [|y l IH]; simpl; [reflexivity|].
  case_bool_decide; [reflexivity|].
  rewrite IH. apply perm_swap.
Qed.

Lemma sort_by_perm (l : list A) : sort_by key l ≡ₚ l.
Proof.
  induction l as [|x l IH]; simpl; [reflexivity|].
  rewrite insert_by_perm. apply perm_skip, IH.
Qed.

Lemma insert_by_sorted (e : A) (l : list A) :
  sorted_by key l → sorted_by key (insert_by key e l).
Proof.
  unfold sorted_by. induction 1 as [|y l Hs IH Hy]; simpl.
  - repeat constructor.
  - case_bool_decide.
    + constructor; [constructor; assumption|].
      constructor; [lia|]. eapply Forall_impl; [exact Hy|]. simpl. intros. lia.
    + constructor; [exact IH|].
      rewrite insert_by_perm. constructor; [lia | exact Hy].
Qed.

Lemma sort_by_sorted (l : list A) : sorted_by key (sort_by key l).
Proof.
  induction l as [|x l IH]; simpl; [constructor|].
  apply insert_by_sorted, IH.
Qed.

Lemma sorted_by_app (l1 l2 : list A) :
  sorted_by key (l1 ++ l2) →
  sorted_by key l2 ∧ ∀ x y, x ∈ l1 → y ∈ l2 → key x ≤ key y.
Proof.
  unfold sorted_by. induction l1 as [|a l1 IH]; simpl; intros H.
  - split; [exact H|]. intros x y Hx. apply elem_of_nil in Hx. destruct Hx.
  - apply StronglySorted_inv in H as [Hs Ha]. destruct (IH Hs) as [H2 Hle].
    split; [exact H2|]. intros x y Hx Hy.
    apply elem_of_cons in Hx as [->|Hx]; [|auto].
    rewrite Forall_forall in Ha. apply Ha, elem_of_app. right. exact Hy.
Qed.

Lemma insert_by_le_head (e : A) (l : list A) :
  Forall (λ y, key e ≤ key y) l → insert_by key e l = e :: l.
Proof.
  destruct l as [|y l]; simpl; [reflexivity|]. intros H.
  apply Forall_cons in H as [Hy _]. rewrite bool_decide_eq_true_2; [reflexivity | lia].
Qed.

Lemma sort_by_id (l : list A) : sorted_by key l → sort_by key l = l.
Proof.
  unfold sorted_by. induction 1 as [|x l Hs IH Hx]; simpl; [reflexivity|].
  rewrite IH. apply insert_by_le_head, Hx.
Qed.

End SortBy.

(** ** The panel position *)

Lemma elem_of_firedPositionEvents (doc : TimelineData) (t : Z) (e : TimelineEvent) :
  e ∈ firedPositionEvents doc t ↔ fired doc t "SetPosition" e.
Proof.
  unfold firedPositionEvents. rewrite sort_by_perm, list_elem_of_filter.
  unfold fired. tauto.
Qed.

Lemma param_or_spec (StringToNumber : string → JSNumber) (e : TimelineEvent)
    (k : string) (d : Q) :
  param_or StringToNumber e k d = target_coordinate StringToNumber k d e.
Proof.
  unfold param_or, target_coordinate.
  destruct (params e !! k) as [[q|str|[|]]|]; reflexivity.
Qed.

(** C3: the fired position events are taken in ascending order of frame.
    With none, the position is undefined; with exactly one, the position is
    interpolated from the default origin (the place of a centred panel of
    259 by 124) toward that event's target with that event's spring
    progress, the spring curve at the time elapsed since that event; with
    two or more, from the target of the second-latest toward the target of
    the latest with the latest's spring progress, and the document reduced
    to those two events gives the same position. *)
Theorem C3_position_chain (spring : SpringArgs → JSNumber)
    (StringToNumber : string → JSNumber)
    (doc : TimelineData) (cfg : VideoConfig) (t : Z) :
  let P := firedPositionEvents doc t in
  let prog e := progress_at spring (vc_fps cfg) t e in
  let originX := ((vc_width cfg - 259) / 2)%Q in
  let originY := ((vc_height cfg - 124) / 2)%Q in
  let tx e := target_coordinate StringToNumber "x" originX e in
  let ty e := target_coordinate StringToNumber "y" originY e in
  let pos := panelPosition spring StringToNumber doc cfg t in
  ((∀ e, e ∈ P ↔ fired doc t "SetPosition" e) ∧ sorted_by frame P)
  ∧ ((∀ e, ¬ fired doc t "SetPosition" e) → pos = (None, None))
  ∧ (∀ l, P = [l] →
       pos = (Some (lerp (Num originX) (tx l) (prog l)),
              Some (lerp (Num originY) (ty l) (prog l))))
  ∧ (∀ pre p l, P = (pre ++ [p; l])%list →
       (Forall (λ e, frame e ≤ frame p) pre ∧ frame p ≤ frame l)
       ∧ pos = (Some (lerp (tx p) (tx l) (prog l)), Some (lerp (ty p) (ty l) (prog l)))
       ∧ panelPosition spring StringToNumber (with_events doc [p; l]) cfg t = pos).
Proof.
  intros P prog originX originY tx ty pos.
  assert (Hmem : ∀ e, e ∈ P ↔ fired doc t "SetPosition" e)
    by (intros e; apply elem_of_firedPositionEvents).
  assert (Hsorted : sorted_by frame P) by apply sort_by_sorted.
  assert (Htx : ∀ e, param_or StringToNumber e "x" (defaultX cfg) = tx e)
    by (intros e; apply param_or_spec).
  assert (Hty : ∀ e, param_or StringToNumber e "y" (defaultY cfg) = ty e)
    by (intros e; apply param_or_spec).
  assert (Hprog : ∀ e, spring (springArgs (vc_fps cfg) t e) = prog e)
    by (intros e; apply progress_at_springArgs).
  split; [split; assumption|]. split; [|split].
  - intros Hno. subst pos. unfold panelPosition. fold P.
    destruct P as [|e P'] eqn:HP; [reflexivity|].
    exfalso. apply (Hno e), Hmem, list_elem_of_here.
  - intros l HP. subst pos. unfold panelPosition. fold P. rewrite HP.
    cbn [rev app head from_option]. rewrite Htx, Hty, Hprog. reflexivity.
  - intros pre p l HP.
    assert (Hord : Forall (λ e, frame e ≤ frame p) pre ∧ frame p ≤ frame l).
    { rewrite HP in Hsorted. apply sorted_by_app in Hsorted as [Hpl Hle]. split.
      - apply Forall_forall. intros e He. apply Hle; [exact He | apply list_elem_of_here].
      - apply StronglySorted_inv in Hpl as [_ Hp]. apply Forall_cons in Hp as [Hp _].
        exact Hp. }
    assert (Hpos : pos = (Some (lerp (tx p) (tx l) (prog l)),
                          Some (lerp (ty p) (ty l) (prog l)))).
    { subst pos. unfold panelPosition. fold P. rewrite HP, rev_app_distr.
      cbn [rev app head from_option]. rewrite !Htx, !Hty, Hprog. reflexivity. }
    split; [exact Hord|]. split; [exact Hpos|]. rewrite Hpos.
    assert (Hp : fired doc t "SetPosition" p).
    { apply Hmem. rewrite HP. apply elem_of_app. right. apply list_elem_of_here. }
    assert (Hl : fired doc t "SetPosition" l).
    { apply Hmem. rewrite HP. apply elem_of_app. right.
      apply list_elem_of_further, list_elem_of_here. }
    destruct Hp as (_ & Hp1 & Hp2 & Hp3). destruct Hl as (_ & Hl1 & Hl2 & Hl3).
    unfold panelPosition, firedPositionEvents. cbn [events with_events].
    rewrite !filter_cons, filter_nil.
    rewrite !decide_True by tauto. cbn [sort_by foldr insert_by].
    rewrite bool_decide_eq_true_2 by lia.
    cbn [rev app head from_option]. rewrite !Htx, !Hty, Hprog. reflexivity.
Qed.

Lemma C3_position_chain_witness :
  panelPosition ramp_spring zero_of_string sample_doc sample_cfg 95
  = (Some (lerp (Num 40) (Num 100) (Num (5 # 10))),
     Some (lerp (Num ((536 - 124) / 2)) (Num 200) (Num (5 # 10))))
  ∧ panelPosition ramp_spring zero_of_string sample_doc sample_cfg 15
    = (Some (lerp (Num ((3840 - 259) / 2)) (Num 0) (Num (5 # 10))),
       Some (lerp (Num ((536 - 124) / 2)) (Num 0) (Num (5 # 10))))
  ∧ panelPosition ramp_spring zero_of_string sample_doc sample_cfg 5 = (None, None).
Proof.
  pose proof (C3_position_chain ramp_spring zero_of_string sample_doc sample_cfg 95)
    as (_ & _ & _ & H95).
  pose proof (C3_position_chain ramp_spring zero_of_string sample_doc sample_cfg 15)
    as (_ & _ & H15 & _).
  pose proof (C3_position_chain ramp_spring zero_of_string sample_doc sample_cfg 5)
    as ((H5m & _) & H5 & _ & _).
  split; [|split].
  - apply (H95 [sample_event "p1" 10 "SetPosition" [("x", PNum 0); ("y", PNum 0)]]
             (sample_event "p3" 50 "SetPosition" [("x", PNum 40)])
             (sample_event "p2" 90 "SetPosition" [("x", PNum 100); ("y", PNum 200)])).
    vm_compute. reflexivity.
  - apply (H15 (sample_event "p1" 10 "SetPosition" [("x", PNum 0); ("y", PNum 0)])).
    vm_compute. reflexivity.
  - apply H5. intros e He. apply H5m in He. vm_compute in He.
    apply elem_of_nil in He. destruct He.
Defined.

(** ** What the resolved state depends on *)









(** ** Spring configurations *)

Lemma validSpringConfigb_true (c : SpringConfig) :
  validSpringConfig c → validSpringConfigb c = true.
Proof.
  intros [Hs Hm]. unfold validSpringConfigb.
  apply andb_true_intro. split; apply negb_true_iff, not_true_is_false;
    rewrite Qle_bool_iff; intros Hle.
  - exact (Qlt_not_le _ _ Hs Hle).
  - exact (Qlt_not_le _ _ Hm Hle).
Qed.

(** The claim that a configuration with non-positive stiffness is rejected
    before the spring is evaluated fails: the document [bad_spring_doc] is
    resolved without any failure, and spring functions that agree on every
    valid configuration give different states for it, so the value of the
    spring on the invalid configuration has entered the state; when that
    value is NaN, the size multiplier is NaN at frame 30 and still at frame
    300. *)
Lemma C7_invalid_config_counterexample :
  ¬ validSpringConfig {| stiffness := 0; damping := 24; mass := 1 |}
  ∧ (∀ a, validSpringConfig (sa_config a) →
          ramp_spring' a = ramp_spring a ∧ nan_spring a = ramp_spring a)
  ∧ (∃ s, sizeMultiplier (DashboardComposition ramp_spring zero_of_string
                            bad_spring_doc sample_cfg 30) = Num s ∧ (s == 1.8)%Q)
  ∧ (∃ s, sizeMultiplier (DashboardComposition ramp_spring' zero_of_string
                            bad_spring_doc sample_cfg 30) = Num s ∧ (s == 1)%Q)
  ∧ sizeMultiplier (DashboardComposition nan_spring zero_of_string
                      bad_spring_doc sample_cfg 30) = NaN
  ∧ sizeMultiplier (DashboardComposition nan_spring zero_of_string
                      bad_spring_doc sample_cfg 300) = NaN.
Proof.
  split; [|split; [|split; [|split; [|split]]]].
  - intros [Hs _]. vm_compute in Hs. discriminate.
  - intros a Ha. unfold ramp_spring', nan_spring.
    rewrite validSpringConfigb_true by exact Ha. split; reflexivity.
  - eexists. split; [vm_compute; reflexivity | reflexivity].
  - eexists. split; [vm_compute; reflexivity | reflexivity].
  - reflexivity.
  - reflexivity.
Qed.

(** C7, as the code has it: no spring configuration is checked.  Whatever
    its stiffness and mass, the configuration of a fired event is passed to
    [spring] as it is, with the time elapsed since the event, and the value
    [spring] returns enters the state: for an expand event that is the only
    fired expand or collapse event the size multiplier is 1 plus 0.8 times
    that value clamped to [0, 1]; when the value is NaN for a fired expand
    or collapse event the size multiplier is NaN, and when it is NaN for the
    latest fired position event the position is NaN.  Nothing fails. *)
Theorem C7_config_passed_unchecked (spring : SpringArgs → JSNumber)
    (StringToNumber : string → JSNumber) (doc : TimelineData) (cfg : VideoConfig) (t : Z)
    (e : TimelineEvent) (c : SpringConfig) :
  e ∈ events doc →
  componentId e = "GlassPanel" →
  frame e ≤ t →
  spring_cfg e = Some c →
  let v := spring {| sa_fps := vc_fps cfg; sa_frame := t - frame e; sa_config := c;
                     sa_from := 0; sa_to := 1 |} in
  let st := DashboardComposition spring StringToNumber doc cfg t in
  (action e = "Expand" ∨ action e = "Collapse" → v = NaN → sizeMultiplier st = NaN)
  ∧ (∀ q, v = Num q →
       fired_events doc t "Expand" = [e] → fired_events doc t "Collapse" = [] →
       ∃ m, sizeMultiplier st = Num m ∧ (m == 1 + clamp_unit q * (8 # 10))%Q)
  ∧ (∀ pre, firedPositionEvents doc t = (pre ++ [e])%list → v = NaN →
       panelX st = Some NaN ∧ panelY st = Some NaN).
Proof.
  intros Hin Hc Hf Hcfg v st.
  assert (Hv : progress_at spring (vc_fps cfg) t e = v).
  { unfold progress_at. rewrite Hcfg. reflexivity. }
  subst st. cbn [sizeMultiplier panelX panelY DashboardComposition].
  split; [|split].
  - intros Ha Hn. unfold sizeMultiplier_of.
    rewrite (netExpansion_NaN spring doc cfg t e); [reflexivity| |congruence].
    apply elem_of_app. destruct Ha as [Ha|Ha]; [left | right];
      apply elem_of_fired_events; repeat split; assumption.
  - intros q Hq HE HC. unfold sizeMultiplier_of.
    rewrite (netExpansion_num spring doc cfg t (λ _, q)).
    + rewrite HE, HC. eexists. split; [reflexivity|].
      rewrite clamp_unit_spec.
      assert (Hs : (Qsum (map (λ _ : TimelineEvent, q) [e])
                    - Qsum (map (λ _ : TimelineEvent, q) []) == q)%Q).
      { unfold Qsum. simpl. ring. }
      rewrite (clamp_unit_compat _ _ Hs). reflexivity.
    + intros e' He'. rewrite HE, HC, app_nil_r in He'.
      apply list_elem_of_singleton in He'. subst e'. congruence.
  - intros pre HP Hn. unfold panelPosition. rewrite HP, rev_app_distr.
    cbn [rev app]. rewrite progress_at_springArgs, Hv, Hn.
    split; cbn [fst snd]; f_equal.
    + destruct (from_option _ _ _); [reflexivity|].
      destruct (js_sub _ _); reflexivity.
    + destruct (from_option _ _ _); [reflexivity|].
      destruct (js_sub _ _); reflexivity.
Qed.

Lemma C7_config_passed_unchecked_witness :
  sizeMultiplier (DashboardComposition nan_spring zero_of_string bad_spring_doc
                    sample_cfg 300) = NaN.
Proof.
  destruct (events bad_spring_doc) as [|e l] eqn:He; [discriminate He|].
  injection He as He _.
  assert (Hin : e ∈ events bad_spring_doc) by (subst e; apply list_elem_of_here).
  refine (proj1 (C7_config_passed_unchecked nan_spring zero_of_string bad_spring_doc
                   sample_cfg 300 e {| stiffness := 0; damping := 24; mass := 1 |}
                   Hin _ _ _) _ _); subst e.
  - reflexivity.
  - simpl. lia.
  - reflexivity.
  - left. reflexivity.
  - reflexivity.
Defined.

(** ** Loading a timeline document *)

(** The status of the answer, when the middleware answers. *)
Lemma timelineApi_post (JSON_parse : string → option JSValue) (writable : bool)
    (file : option string) (b : string) :
  timelineApi JSON_parse writable file {| method := "POST"; req_body := b |}
  = if bool_decide (is_Some (JSON_parse b)) && writable
    then (Some b, Respond {| status := 200;
                             headers := [("Content-Type", "application/json")];
                             res_body := ok_body |})
    else (file, Respond {| status := 400; headers := []; res_body := "Invalid JSON" |}).
Proof.
  unfold timelineApi. simpl.
  destruct (JSON_parse b) as [v|]; destruct writable; reflexivity.
Qed.

(** The claim that a malformed document is rejected fails: [malformed_doc]
    has no fps and a duration of 0 frames, and [Root] makes a composition of
    it, the editor loads it, and the save endpoint stores a document with no
    field at all. *)
Lemma C6_malformed_accepted_counterexample :
  malformed malformed_doc
  ∧ (∃ props, Root (DocObject malformed_doc) = Some props
              ∧ comp_fps props = JUndefined
              ∧ comp_durationInFrames props = JNum 0)
  ∧ loadTimeline initialEditorState (DocObject malformed_doc)
    = ({| rows := []; undoStack := []; redoStack := []; isDirty := false;
          ed_fps := JUndefined; ed_durationFrames := JNum 0;
          ed_canvas := ed_canvas initialEditorState |}, Returned)
  ∧ timelineApi parse_empty_object true None {| method := "POST"; req_body := "{}" |}
    = (Some "{}", Respond {| status := 200;
                             headers := [("Content-Type", "application/json")];
                             res_body := ok_body |}).
Proof.
  split; [left; simpl; tauto|]. split; [|split; reflexivity].
  eexists. split; [reflexivity|]. split; reflexivity.
Qed.

(** C6, as the code has it: no load path checks the document.  Of a
    document that is not [null], [Root] hands fps and durationFrames to the
    composition as they are; the editor stores them as they are, and when
    the events cannot be read it has stored them before the load fails,
    leaving only the rows unloaded.  On the document [null] [Root] throws,
    and the load of the editor fails before anything is stored, so that the
    editor keeps the fps and durationFrames it had.  The save endpoint
    stores every body that parses as JSON and answers 400 only otherwise (or
    when the file cannot be written). *)
Theorem C6_documents_load_unchecked (JSON_parse : string → option JSValue)
    (writable : bool) (st : EditorState) (d : RawTimelineData)
    (file : option string) (b : string) :
  (Root DocNull = None
   ∧ ∃ props, Root (DocObject d) = Some props
              ∧ comp_fps props = raw_fps d
              ∧ comp_durationInFrames props = raw_durationFrames d)
  ∧ loadTimeline st DocNull = (st, Threw)
  ∧ (let r := loadTimeline st (DocObject d) in
     ed_fps (fst r) = raw_fps d
     ∧ ed_durationFrames (fst r) = raw_durationFrames d
     ∧ (snd r = Threw ↔ raw_events d = None)
     ∧ (raw_events d = None → rows (fst r) = rows st))
  ∧ (let r := timelineApi JSON_parse writable file {| method := "POST"; req_body := b |} in
     (is_Some (JSON_parse b) ∧ writable = true
      → fst r = Some b ∧ ∃ resp, snd r = Respond resp ∧ status resp = 200)
     ∧ (¬ (is_Some (JSON_parse b) ∧ writable = true)
        → fst r = file ∧ ∃ resp, snd r = Respond resp ∧ status resp = 400)).
Proof.
  split; [|split; [reflexivity|split]].
  - split; [reflexivity|]. eexists. split; [reflexivity|]. split; reflexivity.
  - cbv zeta. unfold loadTimeline.
    destruct (truthy (raw_canvas d)); destruct (raw_events d) as [evs|]; simpl;
      repeat split; try reflexivity; try discriminate; intros; discriminate.
  - cbv zeta. rewrite timelineApi_post. split.
    + intros [Hp ->]. rewrite bool_decide_eq_true_2 by exact Hp. simpl.
      split; [reflexivity|]. eexists. split; reflexivity.
    + intros Hn. destruct (bool_decide (is_Some (JSON_parse b)) && writable) eqn:E.
      * exfalso. apply Hn. apply andb_prop in E as [E1 E2].
        apply bool_decide_eq_true in E1. split; assumption.
      * simpl. split; [reflexivity|]. eexists. split; reflexivity.
Qed.

Lemma C6_documents_load_unchecked_witness :
  ed_fps (fst (loadTimeline initialEditorState
                 (DocObject {| raw_version := JNum 1; raw_fps := JNum (-1);
                               raw_durationFrames := JUndefined;
                               raw_canvas := JNull; raw_events := None |}))) = JNum (-1)
  ∧ ed_fps (fst (loadTimeline initialEditorState DocNull)) = JNum 60
  ∧ fst (timelineApi parse_empty_object true (Some "old")
           {| method := "POST"; req_body := "{}" |}) = Some "{}".
Proof.
  pose proof (C6_documents_load_unchecked parse_empty_object true initialEditorState
                {| raw_version := JNum 1; raw_fps := JNum (-1);
                   raw_durationFrames := JUndefined;
                   raw_canvas := JNull; raw_events := None |}
                (Some "old") "{}") as (_ & H0 & (H1 & _) & H2 & _).
  split; [exact H1|]. split; [rewrite H0; reflexivity|].
  apply H2. split; [|reflexivity].
  vm_compute. eexists. reflexivity.
Defined.

(** ** The readiness signal *)

(** C8: when the renderer cannot be constructed, or the background texture
    fails to load, [onReady] is called exactly once and nothing is thrown
    out of the effect or of its promise callbacks (the host passes an
    [onReady] that returns, and the canvas is mounted). *)
Theorem C8_onReady_once_on_failure (env : MountEnv) :
  canvasPresent env = true →
  onReadyProp env = Some Returned →
  constructorThrows env = true ∨ textureLoad env = Rejected →
  onReadyCalls (mountEffect env) = 1%nat ∧ ¬ crashes (mountEffect env).
Proof.
  destruct env as [c k tl dr o]. simpl. intros -> -> [-> | ->].
  - split; [reflexivity|]. intros [H|H]; discriminate H.
  - destruct k; (split; [reflexivity|]); intros [H|H]; discriminate H.
Qed.

Lemma C8_onReady_once_on_failure_witness :
  onReadyCalls (mountEffect {| canvasPresent := true; constructorThrows := false;
                               textureLoad := Rejected; doRenderThrows := false;
                               onReadyProp := Some Returned |}) = 1%nat
  ∧ onReadyCalls (mountEffect {| canvasPresent := true; constructorThrows := true;
                                 textureLoad := Pending; doRenderThrows := true;
                                 onReadyProp := Some Returned |}) = 1%nat.
Proof.
  split.
  - apply (C8_onReady_once_on_failure
             {| canvasPresent := true; constructorThrows := false;
                textureLoad := Rejected; doRenderThrows := false;
                onReadyProp := Some Returned |});
      [reflexivity | reflexivity | right; reflexivity].
  - apply (C8_onReady_once_on_failure
             {| canvasPresent := true; constructorThrows := true;
                textureLoad := Pending; doRenderThrows := true;
                onReadyProp := Some Returned |});
      [reflexivity | reflexivity | left; reflexivity].
Defined.

(** ** The pass graph *)

(** C9: four passes are declared, in the order bgPass, vBlurPass, hBlurPass,
    mainPass; every input of a pass names a pass declared strictly earlier
    (vBlurPass reads bgPass, hBlurPass reads vBlurPass, mainPass reads
    hBlurPass and bgPass); only the last pass outputs to the screen; and the
    execution runs the passes in the declared order, every input texture
    having been produced when it is bound. *)
Theorem C9_pass_graph :
  map name rendererPasses = ["bgPass"; "vBlurPass"; "hBlurPass"; "mainPass"]
  ∧ map inputs rendererPasses
    = [ ∅; {[ "u_prevPassTexture" := "bgPass" ]}; {[ "u_prevPassTexture" := "vBlurPass" ]};
        <[ "u_blurredBg" := "hBlurPass" ]> {[ "u_bg" := "bgPass" ]} ]
  ∧ (∀ (i : nat) p u src,
       rendererPasses !! i = Some p → inputs p !! u = Some src →
       ∃ (j : nat) q, (j < i)%nat ∧ rendererPasses !! j = Some q ∧ name q = src)
  ∧ (∀ (i : nat) p,
       rendererPasses !! i = Some p →
       (outputToScreen p = true ↔ S i = length rendererPasses))
  ∧ (∃ ds, executePasses [] rendererPasses = Some ds
           ∧ map draw_pass ds = map name rendererPasses
           ∧ map draw_target ds
             = [FrameBufferOf "bgPass"; FrameBufferOf "vBlurPass";
                FrameBufferOf "hBlurPass"; ScreenSink]).
Proof.
  split; [reflexivity|]. split; [reflexivity|]. split; [|split].
  - intros i p u src Hi Hu.
    destruct i as [|[|[|[|i]]]]; simpl in Hi; try discriminate Hi;
      injection Hi as <-; simpl in Hu.
    + rewrite lookup_empty in Hu. discriminate Hu.
    + apply lookup_singleton_Some in Hu as [_ <-].
      exists 0%nat. eexists. split; [lia|]. split; reflexivity.
    + apply lookup_singleton_Some in Hu as [_ <-].
      exists 1%nat. eexists. split; [lia|]. split; reflexivity.
    + apply lookup_insert_Some in Hu as [[_ <-]|[_ Hu]].
      * exists 2%nat. eexists. split; [lia|]. split; reflexivity.
      * apply lookup_singleton_Some in Hu as [_ <-].
        exists 0%nat. eexists. split; [lia|]. split; reflexivity.
  - intros i p Hi.
    destruct i as [|[|[|[|i]]]]; simpl in Hi; try discriminate Hi;
      injection Hi as <-; simpl; split; intros H; try discriminate H; try lia;
      reflexivity.
  - eexists. split; [vm_compute; reflexivity|]. split; reflexivity.
Qed.

(** * Further properties of the resolver *)

Lemma glassEvents_of_fired (doc : TimelineData) (t : Z) :
  glassEvents doc t
  = filter (λ e, componentId e = "GlassPanel") (filter (λ e, frame e ≤ t) (events doc)).
Proof. unfold glassEvents. rewrite list_filter_filter. reflexivity. Qed.

Lemma firedPositionEvents_of_fired (doc : TimelineData) (t : Z) :
  firedPositionEvents doc t
  = sort_by frame
      (filter (λ e, componentId e = "GlassPanel" ∧ action e = "SetPosition")
              (filter (λ e, frame e ≤ t) (events doc))).
Proof.
  unfold firedPositionEvents. rewrite list_filter_filter. f_equal.
  apply list_filter_iff. intros e. tauto.
Qed.

(** The state is a function of the glass events and the fired position events. *)
Lemma DashboardComposition_ext (spring : SpringArgs → JSNumber) (StringToNumber : string → JSNumber)
    (doc1 doc2 : TimelineData) (cfg : VideoConfig) (t : Z) :
  glassEvents doc1 t = glassEvents doc2 t →
  firedPositionEvents doc1 t = firedPositionEvents doc2 t →
  DashboardComposition spring StringToNumber doc1 cfg t
  = DashboardComposition spring StringToNumber doc2 cfg t.
Proof.
  intros Hg Hp.
  unfold DashboardComposition, sizeMultiplier_of, netExpansion, expandSum, collapseSum,
    isExpanded_of, lastExpandFrame, lastCollapseFrame, expandEvents, collapseEvents,
    panelPosition.
  rewrite Hg, Hp. reflexivity.
Qed.

(** X1: no field of the resolved state looks ahead: two documents with the
    same events up to the query frame resolve to the same state. *)
Theorem state_ignores_future_events (spring : SpringArgs → JSNumber)
    (StringToNumber : string → JSNumber) (doc : TimelineData) (cfg : VideoConfig) (t : Z)
    (evs : list TimelineEvent) :
  filter (λ e, frame e ≤ t) evs = filter (λ e, frame e ≤ t) (events doc) →
  DashboardComposition spring StringToNumber (with_events doc evs) cfg t
  = DashboardComposition spring StringToNumber doc cfg t.
Proof.
  intros H. apply DashboardComposition_ext.
  - rewrite !glassEvents_of_fired. simpl. rewrite H. reflexivity.
  - rewrite !firedPositionEvents_of_fired. simpl. rewrite H. reflexivity.
Qed.

Lemma state_ignores_future_events_witness :
  DashboardComposition ramp_spring zero_of_string
    (with_events sample_doc
       (sample_event "p9" 200 "SetPosition" [("x", PNum 7)] :: events sample_doc))
    sample_cfg 95
  = DashboardComposition ramp_spring zero_of_string sample_doc sample_cfg 95.
Proof.
  apply (state_ignores_future_events ramp_spring zero_of_string sample_doc sample_cfg 95).
  reflexivity.
Defined.

(** X2: events of other components and events with an action the resolver
    does not know are inert: dropping them from the document does not change
    the resolved state. *)
Theorem irrelevant_events_are_inert (spring : SpringArgs → JSNumber)
    (StringToNumber : string → JSNumber) (doc : TimelineData) (cfg : VideoConfig) (t : Z) :
  DashboardComposition spring StringToNumber
    (with_events doc (filter relevant (events doc))) cfg t
  = DashboardComposition spring StringToNumber doc cfg t.
Proof.
  unfold DashboardComposition, sizeMultiplier_of, netExpansion, expandSum, collapseSum,
    isExpanded_of, lastExpandFrame, lastCollapseFrame, expandEvents, collapseEvents,
    panelPosition.
  rewrite !class_events_filter.
  assert (Hc : ∀ cls, cls = "Expand" ∨ cls = "Collapse" ∨ cls = "SetPosition" →
    fired_events (with_events doc (filter relevant (events doc))) t cls
    = fired_events doc t cls).
  { intros cls Hcls. unfold fired_events. simpl.
    rewrite list_filter_filter. apply list_filter_iff.
    intros e. unfold relevant. split; [tauto|].
    intros (H1 & H2 & H3). rewrite H2. tauto. }
  rewrite !Hc by tauto.
  assert (Hp : firedPositionEvents (with_events doc (filter relevant (events doc))) t
               = firedPositionEvents doc t).
  { unfold firedPositionEvents. f_equal. apply (Hc "SetPosition"). tauto. }
  rewrite Hp. reflexivity.
Qed.



Lemma fold_max_perm (l1 l2 : list TimelineEvent) (a : Z) :
  l1 ≡ₚ l2 →
  fold_left (λ max e, Z.max max (frame e)) l1 a
  = fold_left (λ max e, Z.max max (frame e)) l2 a.
Proof.
  intros Hp.
  destruct (fold_max_spec l1 a) as (A1 & A2 & A3).
  destruct (fold_max_spec l2 a) as (B1 & B2 & B3).
  cbv zeta in *.
  set (m1 := fold_left _ l1 a) in *. set (m2 := fold_left _ l2 a) in *.
  assert (m1 ≤ m2).
  { destruct A3 as [->|(e & He & <-)]; [exact B1|]. apply B2. rewrite <- Hp. exact He. }
  assert (m2 ≤ m1).
  { destruct B3 as [->|(e & He & <-)]; [exact A1|]. apply A2. rewrite Hp. exact He. }
  lia.
Qed.

(** X3: the order in which the document lists its events does not matter to
    the expanded flag: two documents whose event lists are permutations of
    each other have, at every frame, the same latest expand frame, the same
    latest collapse frame and the same flag. *)
Theorem expansion_is_order_independent (doc1 doc2 : TimelineData) (t : Z) :
  events doc1 ≡ₚ events doc2 →
  lastExpandFrame doc1 t = lastExpandFrame doc2 t
  ∧ lastCollapseFrame doc1 t = lastCollapseFrame doc2 t
  ∧ isExpanded_of doc1 t = isExpanded_of doc2 t.
Proof.
  intros Hp.
  assert (Hc : ∀ cls, filter (λ e, action e = cls) (glassEvents doc1 t)
                      ≡ₚ filter (λ e, action e = cls) (glassEvents doc2 t)).
  { intros cls. unfold glassEvents. rewrite Hp. reflexivity. }
  assert (He : lastExpandFrame doc1 t = lastExpandFrame doc2 t).
  { unfold lastExpandFrame, expandEvents. apply fold_max_perm, Hc. }
  assert (Hk : lastCollapseFrame doc1 t = lastCollapseFrame doc2 t).
  { unfold lastCollapseFrame, collapseEvents. apply fold_max_perm, Hc. }
  split; [exact He|]. split; [exact Hk|].
  unfold isExpanded_of. rewrite He, Hk. reflexivity.
Qed.

Lemma expansion_is_order_independent_witness :
  lastExpandFrame sample_doc 300
  = lastExpandFrame (with_events sample_doc (rev (events sample_doc))) 300
  ∧ lastCollapseFrame sample_doc 300
    = lastCollapseFrame (with_events sample_doc (rev (events sample_doc))) 300
  ∧ isExpanded_of sample_doc 300
    = isExpanded_of (with_events sample_doc (rev (events sample_doc))) 300.
Proof.
  apply (expansion_is_order_independent sample_doc
           (with_events sample_doc (rev (events sample_doc))) 300).
  apply Permutation_rev.
Defined.

(** X5: while the spring progress of the latest fired position event is 0,
    the panel stands where the previous position event put it, and at the
    default origin when there is none: when the start and the target of the
    interpolation are numbers, the position is the start. *)
Theorem position_starts_at_previous_target (spring : SpringArgs → JSNumber)
    (StringToNumber : string → JSNumber)
    (doc : TimelineData) (cfg : VideoConfig) (t : Z)
    (pre : list TimelineEvent) (l : TimelineEvent) (z : Q) :
  firedPositionEvents doc t = (pre ++ [l])%list →
  progress_at spring (vc_fps cfg) t l = Num z →
  (z == 0)%Q →
  let originX := ((vc_width cfg - 259) / 2)%Q in
  let originY := ((vc_height cfg - 124) / 2)%Q in
  let coord := target_coordinate StringToNumber in
  let startX := from_option (coord "x" originX) (Num originX) (last pre) in
  let startY := from_option (coord "y" originY) (Num originY) (last pre) in
  ∃ x y, panelPosition spring StringToNumber doc cfg t = (Some x, Some y)
    ∧ (∀ sx tx, startX = Num sx → coord "x" originX l = Num tx →
         ∃ q, x = Num q ∧ (q == sx)%Q)
    ∧ (∀ sy ty, startY = Num sy → coord "y" originY l = Num ty →
         ∃ q, y = Num q ∧ (q == sy)%Q).
Proof.
  intros HP H0 Hz originX originY coord startX startY.
  unfold panelPosition. rewrite HP, rev_app_distr. cbn [rev app].
  assert (Hhead : head (rev pre) = last pre).
  { rewrite <- (rev_involutive pre) at 2. generalize (rev pre). intros k.
    destruct k as [|a k]; [reflexivity|]. simpl. rewrite last_snoc. reflexivity. }
  rewrite Hhead, progress_at_springArgs, H0.
  assert (Hsx : from_option (λ p, param_or StringToNumber p "x" (defaultX cfg))
                            (Num (defaultX cfg)) (last pre) = startX).
  { subst startX. destruct (last pre) as [p|]; [apply param_or_spec | reflexivity]. }
  assert (Hsy : from_option (λ p, param_or StringToNumber p "y" (defaultY cfg))
                            (Num (defaultY cfg)) (last pre) = startY).
  { subst startY. destruct (last pre) as [p|]; [apply param_or_spec | reflexivity]. }
  assert (Htx : param_or StringToNumber l "x" (defaultX cfg) = coord "x" originX l)
    by apply param_or_spec.
  assert (Hty : param_or StringToNumber l "y" (defaultY cfg) = coord "y" originY l)
    by apply param_or_spec.
  rewrite Hsx, Hsy, Htx, Hty.
  eexists. eexists. split; [reflexivity|]. split.
  - intros sx tx Hs Ht. rewrite Hs, Ht. eexists. split; [reflexivity|].
    rewrite Hz. ring.
  - intros sy ty Hs Ht. rewrite Hs, Ht. eexists. split; [reflexivity|].
    rewrite Hz. ring.
Qed.

Lemma position_starts_at_previous_target_witness :
  ∃ x y, panelPosition ramp_spring zero_of_string sample_doc sample_cfg 90 = (Some x, Some y)
         ∧ (∃ q, x = Num q ∧ (q == 40)%Q)
         ∧ (∃ q, y = Num q ∧ (q == 206)%Q).
Proof.
  destruct (position_starts_at_previous_target ramp_spring zero_of_string sample_doc
              sample_cfg 90
              [sample_event "p1" 10 "SetPosition" [("x", PNum 0); ("y", PNum 0)];
               sample_event "p3" 50 "SetPosition" [("x", PNum 40)]]
              (sample_event "p2" 90 "SetPosition" [("x", PNum 100); ("y", PNum 200)])
              (0 # 10) eq_refl eq_refl eq_refl) as (x & y & Hpos & Hx & Hy).
  exists x, y. split; [exact Hpos|]. split.
  - destruct (Hx 40%Q 100%Q eq_refl eq_refl) as (q & Hq & E). exists q. split; assumption.
  - destruct (Hy ((536 - 124) / 2)%Q 200%Q eq_refl eq_refl) as (q & Hq & E).
    exists q. split; [exact Hq|]. rewrite E. reflexivity.
Defined.

(** * The segments of the composition *)

Lemma tiles_app (a b c : Z) (l1 l2 : list Segment) :
  tiles a b l1 → tiles b c l2 → tiles a c (l1 ++ l2).
Proof.
  induction 1 as [a|a b s rest Hf Hd _ IH]; simpl; intros H2; [exact H2|].
  apply tiles_cons; [exact Hf | exact Hd | apply IH, H2].
Qed.

Lemma segmentsOf_positive (sorted : list TimelineEvent) (d : Z) :
  Forall (λ s, 0 < seg_duration s) (segmentsOf sorted d).
Proof.
  induction sorted as [|evt rest IH]; simpl; [constructor|].
  apply Forall_app. split; [|exact IH].
  case_bool_decide; repeat constructor; simpl; lia.
Qed.

Lemma segmentsOf_tiles (evt : TimelineEvent) (rest : list TimelineEvent) (d : Z) :
  StronglySorted (λ a b, frame a + 2 ≤ frame b) (evt :: rest) →
  Forall (λ e, frame e + 2 ≤ d) (evt :: rest) →
  tiles (frame evt) d (segmentsOf (evt :: rest) d).
Proof.
  revert evt. induction rest as [|next rest IH]; intros evt Hs Hd.
  - apply Forall_cons in Hd as [Hd _]. simpl. rewrite app_nil_r.
    case_bool_decide.
    + apply tiles_cons; [reflexivity | simpl; lia|]. simpl.
      apply tiles_cons; [reflexivity | simpl; lia|]. simpl.
      replace (frame evt + 2 + (d - (frame evt + 2))) with d by lia. apply tiles_nil.
    + apply tiles_cons; [reflexivity | simpl; lia|]. simpl.
      replace (frame evt + 2) with d by lia. apply tiles_nil.
  - apply StronglySorted_inv in Hs as [Hs Hn]. apply Forall_cons in Hn as [Hn _].
    apply Forall_cons in Hd as [_ Hd]. specialize (IH next Hs Hd).
    change (segmentsOf (evt :: next :: rest) d)
      with ((if bool_decide (frame next - (frame evt + 2) > 0)
             then [ {| seg_name := "â†“ Click: " ++ action evt; seg_from := frame evt;
                       seg_duration := 2 |};
                    {| seg_name := if bool_decide (action evt = "Expand")
                                   then "Expanded" else "Idle";
                       seg_from := frame evt + 2;
                       seg_duration := frame next - (frame evt + 2) |} ]
             else [ {| seg_name := "â†“ Click: " ++ action evt; seg_from := frame evt;
                       seg_duration := 2 |} ])
            ++ segmentsOf (next :: rest) d)%list.
    apply tiles_app with (b := frame next); [|exact IH].
    case_bool_decide.
    + apply tiles_cons; [reflexivity | simpl; lia|]. simpl.
      apply tiles_cons; [reflexivity | simpl; lia|]. simpl.
      replace (frame evt + 2 + (frame next - (frame evt + 2))) with (frame next) by lia.
      apply tiles_nil.
    + apply tiles_cons; [reflexivity | simpl; lia|]. simpl.
      replace (frame evt + 2) with (frame next) by lia. apply tiles_nil.
Qed.

(** X6: when the events, taken in ascending order of frame, lie at least two
    frames apart, none before frame 0 and each at least two frames before
    the end, the segments cover the composition from frame 0 to
    [durationFrames] without gap or overlap, each lasting at least one
    frame. *)
Theorem getSegments_tiles (events : list TimelineEvent) (durationFrames : Z) :
  StronglySorted (λ a b, frame a + 2 ≤ frame b) (sort_by frame events) →
  Forall (λ e, 0 ≤ frame e ∧ frame e + 2 ≤ durationFrames) events →
  0 < durationFrames →
  tiles 0 durationFrames (getSegments events durationFrames).
Proof.
  intros Hs Hr Hd. unfold getSegments.
  assert (Hr' : Forall (λ e, 0 ≤ frame e ∧ frame e + 2 ≤ durationFrames)
                       (sort_by frame events)).
  { rewrite sort_by_perm. exact Hr. }
  destruct (sort_by frame events) as [|first rest]; simpl.
  - apply tiles_cons; [reflexivity | simpl; lia|]. simpl. apply tiles_nil.
  - assert (Hf : 0 ≤ frame first) by (apply Forall_cons in Hr' as [[H _] _]; exact H).
    assert (Ht : tiles (frame first) durationFrames
                   (segmentsOf (first :: rest) durationFrames)).
    { apply segmentsOf_tiles; [exact Hs|].
      eapply Forall_impl; [exact Hr'|]. simpl. intros e [_ H]. exact H. }
    case_bool_decide.
    + apply tiles_cons; [reflexivity | simpl; lia|]. simpl. exact Ht.
    + assert (E0 : frame first = 0) by lia. rewrite E0 in Ht. exact Ht.
Qed.

Lemma getSegments_tiles_witness :
  tiles 0 360 (compositionSegments sample_doc).
Proof.
  apply (getSegments_tiles
           (filter (λ e, componentId e = "GlassPanel") (events sample_doc)) 360).
  - vm_compute. repeat first [discriminate | constructor].
  - repeat constructor; simpl; lia.
  - lia.
Defined.

(** X7: whatever the frames of the events and the duration of the
    composition, as soon as there is one event every segment lasts at least
    one frame (without events the one segment lasts [durationFrames], which
    is not checked). *)
Theorem getSegments_durations_positive (events : list TimelineEvent)
    (durationFrames : Z) :
  events ≠ [] →
  Forall (λ s, 0 < seg_duration s) (getSegments events durationFrames).
Proof.
  intros Hne. unfold getSegments.
  destruct (sort_by frame events) as [|first rest] eqn:E.
  - exfalso. apply Hne. apply Permutation_nil_r. rewrite <- E.
    symmetry. apply sort_by_perm.
  - apply Forall_app. split; [|apply segmentsOf_positive].
    case_bool_decide; repeat constructor. simpl. lia.
Qed.

Lemma getSegments_durations_positive_witness :
  Forall (λ s, 0 < seg_duration s)
         (getSegments [sample_event "a" 300 "Expand" []; sample_event "b" 299 "Collapse" []]
                      (-4)).
Proof.
  apply (getSegments_durations_positive
           [sample_event "a" 300 "Expand" []; sample_event "b" 299 "Collapse" []] (-4)).
  discriminate.
Defined.

Lemma segmentsOf_click (sorted : list TimelineEvent) (d : Z) (e : TimelineEvent) :
  e ∈ sorted →
  {| seg_name := "â†“ Click: " ++ action e; seg_from := frame e; seg_duration := 2 |}
  ∈ segmentsOf sorted d.
Proof.
  induction sorted as [|evt rest IH]; intros He.
  - apply elem_of_nil in He. destruct He.
  - simpl. apply elem_of_app. apply elem_of_cons in He as [->|He].
    + left. case_bool_decide; apply list_elem_of_here.
    + right. apply IH, He.
Qed.

(** X8: every event given to [getSegments] gets its click segment: two
    frames long, starting at the frame of the event and named after its
    action. *)
Theorem getSegments_click (events : list TimelineEvent) (durationFrames : Z)
    (e : TimelineEvent) :
  e ∈ events →
  {| seg_name := "â†“ Click: " ++ action e; seg_from := frame e; seg_duration := 2 |}
  ∈ getSegments events durationFrames.
Proof.
  intros He. unfold getSegments.
  assert (Hs : e ∈ sort_by frame events) by (rewrite sort_by_perm; exact He).
  destruct (sort_by frame events) as [|first rest] eqn:E.
  - apply elem_of_nil in Hs. destruct Hs.
  - apply elem_of_app. right. apply segmentsOf_click, Hs.
Qed.

Lemma getSegments_click_witness :
  {| seg_name := "â†“ Click: Collapse"; seg_from := 240; seg_duration := 2 |}
  ∈ compositionSegments sample_doc.
Proof.
  apply (getSegments_click
           (filter (λ e, componentId e = "GlassPanel") (events sample_doc)) 360
           (sample_event "c1" 240 "Collapse" [])).
  vm_compute. do 2 apply list_elem_of_further. apply list_elem_of_here.
Defined.

(** * The editor *)

Lemma slice_last_all {A} (n : nat) (l : list A) :
  (length l ≤ n)%nat → slice_last n l = l.
Proof.
  intros H. unfold slice_last. replace (length l - n)%nat with 0%nat by lia. reflexivity.
Qed.

Lemma length_slice_last {A} (n : nat) (l : list A) : (length (slice_last n l) ≤ n)%nat.
Proof. unfold slice_last. rewrite length_drop. lia. Qed.

Lemma slice_init_snoc {A} (l : list A) (x : A) : slice_init (l ++ [x]) = l.
Proof.
  unfold slice_init. rewrite length_app. simpl.
  replace (length l + 1 - 1)%nat with (length l) by lia.
  apply take_app_length.
Qed.

Lemma length_slice_init {A} (l : list A) : (length (slice_init l) ≤ length l)%nat.
Proof. unfold slice_init. rewrite length_take. lia. Qed.

Lemma Forall_last {A} (P : A → Prop) (l : list A) (x : A) :
  Forall P l → last l = Some x → P x.
Proof.
  intros H Hl. apply last_Some_elem_of in Hl. rewrite Forall_forall in H. auto.
Qed.

Lemma updateRows_invariant (newRows : list TimelineRow) (st : EditorState) :
  editor_invariant st → editor_invariant (updateRows newRows st).
Proof.
  intros (Hr & Hu & Hd & Hl). unfold editor_invariant, updateRows. simpl.
  split; [apply sort_by_sorted|]. split; [|split; [constructor|]].
  - apply Forall_app. split; [apply Forall_drop, Hu | repeat constructor; exact Hr].
  - rewrite length_app. cbv [slice_last MAX_UNDO] in *. rewrite length_drop. simpl. lia.
Qed.

Lemma undo_invariant (st : EditorState) : editor_invariant st → editor_invariant (undo st).
Proof.
  intros (Hr & Hu & Hd & Hl). unfold undo.
  destruct (last (undoStack st)) as [prev|] eqn:E; [|repeat split; assumption].
  unfold editor_invariant. simpl.
  split; [exact (Forall_last _ _ _ Hu E)|]. split; [apply Forall_take, Hu|]. split.
  - apply Forall_app. split; [exact Hd | repeat constructor; exact Hr].
  - pose proof (length_slice_init (undoStack st)). lia.
Qed.

Lemma redo_invariant (st : EditorState) : editor_invariant st → editor_invariant (redo st).
Proof.
  intros (Hr & Hu & Hd & Hl). unfold redo.
  destruct (last (redoStack st)) as [next|] eqn:E; [|repeat split; assumption].
  unfold editor_invariant. simpl.
  split; [exact (Forall_last _ _ _ Hd E)|]. split; [|split; [apply Forall_take, Hd|]].
  - apply Forall_app. split; [apply Forall_drop, Hu | repeat constructor; exact Hr].
  - rewrite length_app. cbv [slice_last MAX_UNDO] in *. rewrite length_drop. simpl. lia.
Qed.

Lemma loadTimeline_invariant (st : EditorState) (parsed : ParsedDocument) :
  editor_invariant st → editor_invariant (fst (loadTimeline st parsed)).
Proof.
  intros (Hr & Hu & Hd & Hl). unfold loadTimeline.
  destruct parsed as [|data]; [repeat split; assumption|].
  destruct (truthy (raw_canvas data)); destruct (raw_events data) as [evs|]; simpl;
    (split; [first [apply sort_by_sorted | exact Hr]|]); repeat split; assumption.
Qed.

Lemma editorStep_invariant (st : EditorState) (a : EditorAction) :
  editor_invariant st → editor_invariant (editorStep st a).
Proof.
  intros H. destruct a; simpl.
  - apply updateRows_invariant, H.
  - apply undo_invariant, H.
  - apply redo_invariant, H.
  - exact H.
  - apply updateRows_invariant, H.
  - exact H.
  - exact H.
  - apply loadTimeline_invariant, H.
Qed.

(** X9: whatever the user does in the editor, in whatever order, the rows
    stay in ascending order of frame, every snapshot kept for undo or redo is
    in ascending order of frame, and the undo history never holds more than
    [MAX_UNDO] snapshots. *)
Theorem editor_keeps_invariant (acts : list EditorAction) :
  editor_invariant (editorRun initialEditorState acts).
Proof.
  unfold editorRun.
  assert (H0 : editor_invariant initialEditorState).
  { unfold editor_invariant. simpl. repeat split; try constructor. unfold MAX_UNDO. lia. }
  revert H0. generalize initialEditorState.
  induction acts as [|a acts IH]; intros st H; simpl; [exact H|].
  apply IH, editorStep_invariant, H.
Qed.

Lemma undo_updateRows (newRows : list TimelineRow) (st : EditorState) :
  undo (updateRows newRows st)
  = {| rows := rows st;
       undoStack := slice_last (MAX_UNDO - 1) (undoStack st);
       redoStack := [sort_by row_frame newRows];
       isDirty := true; ed_fps := ed_fps st;
       ed_durationFrames := ed_durationFrames st; ed_canvas := ed_canvas st |}.
Proof.
  unfold undo, updateRows.
  cbn [undoStack rows redoStack ed_fps ed_durationFrames ed_canvas].
  rewrite last_snoc, slice_init_snoc. reflexivity.
Qed.

(** X10: undo takes back an edit: after [updateRows] and then [undo] the
    rows are the ones before the edit, the edit is the one snapshot kept for
    redo, and [redo] brings the edited rows back; the undo history is the one
    before the edit, cut to its last [MAX_UNDO - 1] snapshots.  The edited
    rows are the given rows, none lost and none added. *)
Theorem undo_takes_back_updateRows (newRows : list TimelineRow) (st : EditorState) :
  let st' := undo (updateRows newRows st) in
  rows st' = rows st
  ∧ redoStack st' = [sort_by row_frame newRows]
  ∧ undoStack st' = slice_last (MAX_UNDO - 1) (undoStack st)
  ∧ rows (redo st') = sort_by row_frame newRows
  ∧ rows (updateRows newRows st) ≡ₚ newRows.
Proof.
  cbv zeta. rewrite undo_updateRows.
  split; [reflexivity|]. split; [reflexivity|]. split; [reflexivity|]. split.
  - reflexivity.
  - apply sort_by_perm.
Qed.

(** X11: redo takes back an undo: on a state with something to undo and an
    undo history within its bound, [undo] followed by [redo] gives the state
    back, marked as modified; in particular nothing of the undo history is
    lost on the way. *)
Theorem redo_takes_back_undo (st : EditorState) :
  undoStack st ≠ [] →
  (length (undoStack st) ≤ MAX_UNDO)%nat →
  redo (undo st)
  = {| rows := rows st; undoStack := undoStack st; redoStack := redoStack st;
       isDirty := true; ed_fps := ed_fps st;
       ed_durationFrames := ed_durationFrames st; ed_canvas := ed_canvas st |}.
Proof.
  intros Hne Hlen.
  destruct (last (undoStack st)) as [prev|] eqn:E.
  - apply last_Some in E as [s' E]. unfold undo. rewrite E, last_snoc.
    unfold redo. cbn [undoStack rows redoStack ed_fps ed_durationFrames ed_canvas].
    rewrite last_snoc, !slice_init_snoc.
    rewrite slice_last_all; [reflexivity|].
    rewrite E, length_app in Hlen. simpl in Hlen. unfold MAX_UNDO in *. lia.
  - exfalso. destruct (undoStack st) as [|x l] using rev_ind; [congruence|].
    rewrite last_snoc in E. discriminate E.
Qed.

Lemma redo_takes_back_undo_witness :
  rows (redo (undo (updateRows [sample_row "b" 20; sample_row "a" 10] initialEditorState)))
  = [sample_row "a" 10; sample_row "b" 20].
Proof.
  rewrite (redo_takes_back_undo
             (updateRows [sample_row "b" 20; sample_row "a" 10] initialEditorState)).
  - reflexivity.
  - discriminate.
  - vm_compute. repeat constructor.
Defined.

Lemma sorted_by_map {A B} (f : A → B) (keyA : A → Z) (keyB : B → Z) (l : list A) :
  (∀ x, keyB (f x) = keyA x) → sorted_by keyA l → sorted_by keyB (map f l).
Proof.
  intros Hk. unfold sorted_by. induction 1 as [|x l Hs IH Hx]; simpl; constructor.
  - exact IH.
  - rewrite Forall_forall in Hx. apply Forall_forall. intros y Hy.
    apply list_elem_of_In, in_map_iff in Hy as (z & <- & Hz).
    rewrite !Hk. apply Hx, list_elem_of_In, Hz.
Qed.

(** X12: what [save] writes is what the load reads back: loading the
    document built by [save] from a state whose rows are in ascending order
    of frame gives these rows again, in the same order and without their
    [_isNew] marks, and the fps and durationFrames of that state; the load
    does not throw. *)
Theorem load_reads_back_save (st st0 : EditorState) :
  sorted_by row_frame (rows st) →
  let r := loadTimeline st0 (DocObject (saveDocument st)) in
  snd r = Returned
  ∧ rows (fst r) = map (λ x, row_of_event (event_of_row x)) (rows st)
  ∧ map event_of_row (rows (fst r)) = map event_of_row (rows st)
  ∧ ed_fps (fst r) = ed_fps st
  ∧ ed_durationFrames (fst r) = ed_durationFrames st.
Proof.
  intros Hs. cbv zeta. unfold loadTimeline, saveDocument.
  cbn [raw_fps raw_durationFrames raw_canvas raw_events].
  assert (Hrows : sort_by row_frame (map row_of_event (map event_of_row (rows st)))
                  = map (λ x, row_of_event (event_of_row x)) (rows st)).
  { rewrite map_map. apply sort_by_id.
    apply (sorted_by_map _ row_frame row_frame); [reflexivity | exact Hs]. }
  destruct (truthy (ed_canvas st)); cbn [fst snd rows ed_fps ed_durationFrames];
    rewrite Hrows; (split; [reflexivity|]); (split; [reflexivity|]);
    (split; [|split; reflexivity]); rewrite map_map; apply map_ext; reflexivity.
Qed.

Lemma load_reads_back_save_witness :
  map event_of_row
    (rows (fst (loadTimeline initialEditorState
                  (DocObject
                     (saveDocument
                        (updateRows [sample_row "b" 20; sample_row "a" 10]
                                    initialEditorState))))))
  = map event_of_row [sample_row "a" 10; sample_row "b" 20].
Proof.
  apply (load_reads_back_save
           (updateRows [sample_row "b" 20; sample_row "a" 10] initialEditorState)
           initialEditorState).
  vm_compute. repeat first [discriminate | constructor].
Defined.

(** * The timeline endpoint *)

(** X13: the file behind /api/timeline changes only through a POST whose
    body parses as JSON (and a write that succeeds), and then it holds
    exactly that body; OPTIONS, GET, a refused POST and every other method
    leave it as it is, and a method other than these three is passed on to
    the next middleware unanswered. *)
Theorem timelineApi_file_changes_only_on_post (JSON_parse : string → option JSValue)
    (writable : bool) (file : option string) (req : Request) :
  let r := timelineApi JSON_parse writable file req in
  (fst r ≠ file →
   method req = "POST" ∧ is_Some (JSON_parse (req_body req)) ∧ writable = true
   ∧ fst r = Some (req_body req))
  ∧ (snd r = Next ↔ method req ≠ "OPTIONS" ∧ method req ≠ "GET" ∧ method req ≠ "POST").
Proof.
  cbv zeta. unfold timelineApi.
  repeat case_bool_decide; simpl.
  - split; [intros Hx; exfalso; apply Hx; reflexivity|]. split; [discriminate | tauto].
  - destruct file; simpl;
      (split; [intros Hx; exfalso; apply Hx; reflexivity|]; split; [discriminate | tauto]).
  - destruct (JSON_parse (req_body req)) as [v|] eqn:E; [destruct writable|]; simpl.
    + split; [|split; [discriminate | tauto]].
      intros _. split; [assumption|]. split; [eexists; reflexivity|]. split; reflexivity.
    + split; [intros Hx; exfalso; apply Hx; reflexivity|]. split; [discriminate | tauto].
    + split; [intros Hx; exfalso; apply Hx; reflexivity|]. split; [discriminate | tauto].
  - split; [intros Hx; exfalso; apply Hx; reflexivity|]. split; [tauto | reflexivity].
Qed.

(** X14: what is saved is what is served: after a POST whose body parses
    and whose write succeeds, a GET is answered with status 200 and exactly
    that body, whatever the file held before (also when it could not be
    read).  When the body parses and the write fails, the POST is answered
    with status 400 and a GET is answered as it was before the POST. *)
Theorem timelineApi_get_after_post (JSON_parse : string → option JSValue)
    (writable : bool) (file : option string) (b : string) :
  is_Some (JSON_parse b) →
  let r := timelineApi JSON_parse writable file {| method := "POST"; req_body := b |} in
  (writable = true →
   fst r = Some b
   ∧ ∀ writable' any,
       timelineApi JSON_parse writable' (fst r) {| method := "GET"; req_body := any |}
       = (Some b, Respond {| status := 200;
                             headers := [("Content-Type", "application/json")];
                             res_body := b |}))
  ∧ (writable = false →
     snd r = Respond {| status := 400; headers := []; res_body := "Invalid JSON" |}
     ∧ ∀ writable' any,
         timelineApi JSON_parse writable' (fst r) {| method := "GET"; req_body := any |}
         = timelineApi JSON_parse writable' file {| method := "GET"; req_body := any |}).
Proof.
  intros Hp. cbv zeta. rewrite timelineApi_post.
  rewrite bool_decide_eq_true_2 by exact Hp. split; intros ->; simpl.
  - split; reflexivity.
  - split; reflexivity.
Qed.

Lemma timelineApi_get_after_post_witness :
  timelineApi parse_empty_object true
    (fst (timelineApi parse_empty_object true None {| method := "POST"; req_body := "{}" |}))
    {| method := "GET"; req_body := "" |}
  = (Some "{}", Respond {| status := 200;
                           headers := [("Content-Type", "application/json")];
                           res_body := "{}" |})
  ∧ timelineApi parse_empty_object true
      (fst (timelineApi parse_empty_object false (Some "old")
              {| method := "POST"; req_body := "{}" |}))
      {| method := "GET"; req_body := "" |}
    = timelineApi parse_empty_object true (Some "old") {| method := "GET"; req_body := "" |}.
Proof.
  assert (Hp : is_Some (parse_empty_object "{}")) by (vm_compute; eexists; reflexivity).
  split.
  - apply (proj1 (timelineApi_get_after_post parse_empty_object true None "{}" Hp)).
    reflexivity.
  - apply (proj2 (timelineApi_get_after_post parse_empty_object false (Some "old") "{}" Hp)).
    reflexivity.
Defined.

(** * The panel of the rendering component *)

Lemma Math_round_spec (x : Q) :
  (x - (1 # 2) < inject_Z (Math_round x))%Q ∧ (inject_Z (Math_round x) <= x + (1 # 2))%Q.
Proof.
  unfold Math_round. split.
  - pose proof (Qlt_floor (x + (1 # 2))) as H. rewrite inject_Z_plus in H.
    change (inject_Z 1) with 1%Q in H. lra.
  - apply Qfloor_le.
Qed.

Lemma Math_round_le (x y : Q) : (x <= y)%Q → Math_round x ≤ Math_round y.
Proof. intros H. unfold Math_round. apply Qfloor_resp_le. lra. Qed.

Lemma Math_round_Z (k : Z) : Math_round (inject_Z k) = k.
Proof.
  destruct (Math_round_spec (inject_Z k)) as [H1 H2].
  assert (Hlo : (inject_Z (k + -1) < inject_Z (Math_round (inject_Z k)))%Q).
  { rewrite inject_Z_plus. change (inject_Z (-1)) with (-1)%Q. lra. }
  assert (Hhi : (inject_Z (Math_round (inject_Z k)) < inject_Z (k + 1))%Q).
  { rewrite inject_Z_plus. change (inject_Z 1) with 1%Q. lra. }
  rewrite <- Zlt_Qlt in Hlo, Hhi. lia.
Qed.

(** X15: on a grid of positive size, snapping moves a value by at most half
    a grid step, leaves the multiples of the grid size where they are, and
    so gives the same result when done twice. *)
Theorem snapToGrid_nearest (value gridSize : Q) :
  (0 < gridSize)%Q →
  (Qabs (snapToGrid value gridSize - value) <= gridSize / 2)%Q
  ∧ (∀ k : Z, snapToGrid (inject_Z k * gridSize) gridSize == inject_Z k * gridSize)%Q
  ∧ (snapToGrid (snapToGrid value gridSize) gridSize == snapToGrid value gridSize)%Q.
Proof.
  intros Hg.
  assert (Hgrid : ∀ k : Z,
            (snapToGrid (inject_Z k * gridSize) gridSize == inject_Z k * gridSize)%Q).
  { intros k. unfold snapToGrid.
    assert (E : (inject_Z k * gridSize / gridSize == inject_Z k)%Q).
    { apply Qdiv_mult_l. lra. }
    unfold Math_round. rewrite E. fold (Math_round (inject_Z k)).
    rewrite Math_round_Z. reflexivity. }
  split; [|split].
  - unfold snapToGrid.
    destruct (Math_round_spec (value / gridSize)) as [H1 H2].
    set (r := inject_Z (Math_round (value / gridSize))) in *.
    assert (Ev : (value == value / gridSize * gridSize)%Q).
    { field. lra. }
    set (q := (value / gridSize)%Q) in *.
    clearbody r q.
    assert (A : ((r - q) * gridSize <= (1 # 2) * gridSize)%Q).
    { apply Qmult_le_compat_r; lra. }
    assert (B : (- (1 # 2) * gridSize <= (r - q) * gridSize)%Q).
    { apply Qmult_le_compat_r; lra. }
    assert (Eh : (gridSize / 2 == gridSize * (1 # 2))%Q) by (field).
    apply Qabs_Qle_condition. rewrite Eh, Ev.
    split; [ring_simplify; ring_simplify in B | ring_simplify; ring_simplify in A]; lra.
  - exact Hgrid.
  - unfold snapToGrid at 2 3. apply Hgrid.
Qed.

Lemma snapToGrid_nearest_witness :
  (Qabs (snapToGrid 100 GRID_SIZE - 100) <= GRID_SIZE / 2)%Q.
Proof.
  apply (snapToGrid_nearest 100 GRID_SIZE). reflexivity.
Defined.

Lemma handlePointerMove_spec (down m : Point) (ui : PanelUI) :
  isDragging (dragState ui) = true →
  startX (dragState ui) = pt_x down →
  startY (dragState ui) = pt_y down →
  let ui' := handlePointerMove (pt_x m) (pt_y m) ui in
  committedPos ui' = committedPos ui
  ∧ ui_isExpanded ui' = ui_isExpanded ui
  ∧ isDragging (dragState ui') = true
  ∧ startX (dragState ui') = pt_x down
  ∧ startY (dragState ui') = pt_y down
  ∧ (hasMoved (dragState ui') = true ↔ hasMoved (dragState ui) = true ∨ beyond down m).
Proof.
  intros Hd Hx Hy. cbv zeta. unfold handlePointerMove, beyond. rewrite Hd, Hx, Hy.
  cbn [negb].
  destruct (bool_decide (3 < Qabs (pt_x m - pt_x down))%Q) eqn:E1;
    [|destruct (bool_decide (3 < Qabs (pt_y m - pt_y down))%Q) eqn:E2];
    cbn [orb committedPos ui_isExpanded dragState isDragging startX startY hasMoved].
  - apply bool_decide_eq_true in E1. repeat split; try assumption; try reflexivity; tauto.
  - apply bool_decide_eq_true in E2. repeat split; try assumption; try reflexivity; tauto.
  - apply bool_decide_eq_false in E1, E2. repeat split; try assumption; tauto.
Qed.

Lemma moves_spec (down : Point) (moves : list Point) (ui : PanelUI) :
  isDragging (dragState ui) = true →
  startX (dragState ui) = pt_x down →
  startY (dragState ui) = pt_y down →
  let ui' := fold_left (λ u m, handlePointerMove (pt_x m) (pt_y m) u) moves ui in
  committedPos ui' = committedPos ui
  ∧ ui_isExpanded ui' = ui_isExpanded ui
  ∧ isDragging (dragState ui') = true
  ∧ (hasMoved (dragState ui') = true
     ↔ hasMoved (dragState ui) = true ∨ Exists (beyond down) moves).
Proof.
  revert ui. induction moves as [|m moves IH]; intros ui Hd Hx Hy; cbv zeta.
  - simpl. split; [reflexivity|]. split; [reflexivity|]. split; [exact Hd|].
    split; [tauto|]. intros [H|H]; [exact H | inversion H].
  - destruct (handlePointerMove_spec down m ui Hd Hx Hy) as (S1 & S2 & S3 & S4 & S5 & S6).
    cbv zeta in *.
    destruct (IH (handlePointerMove (pt_x m) (pt_y m) ui) S3 S4 S5) as (I1 & I2 & I3 & I4).
    cbv zeta in *. cbn [fold_left].
    split; [rewrite I1; exact S1|]. split; [rewrite I2; exact S2|]. split; [exact I3|].
    rewrite I4, S6, Exists_cons. tauto.
Qed.

(** X16: a press and release during which the pointer never strays more
    than three pixels from where it went down along either axis is a click:
    it toggles the expanded state and leaves the committed position of the
    panel where it was. *)
Theorem click_toggles_expansion (down : Point) (moves : list Point) (current : Point)
    (currentSize viewportSize : Size) (ui : PanelUI) :
  Forall (λ m, ¬ beyond down m) moves →
  let ui' := gesture down moves current currentSize viewportSize ui in
  ui_isExpanded ui' = negb (ui_isExpanded ui)
  ∧ committedPos ui' = committedPos ui
  ∧ isDragging (dragState ui') = false.
Proof.
  intros Hall. cbv zeta. unfold gesture.
  destruct (moves_spec down moves (handlePointerDown (pt_x down) (pt_y down) ui))
    as (I1 & I2 & I3 & I4); [reflexivity..|].
  cbv zeta in *.
  set (u := fold_left _ moves _) in *.
  assert (Hm : hasMoved (dragState u) = false).
  { apply not_true_is_false. rewrite I4. simpl. intros [H|H]; [discriminate H|].
    apply Exists_exists in H as (m & Hm & Hb). rewrite Forall_forall in Hall.
    exact (Hall m Hm Hb). }
  unfold handlePointerUp. rewrite I3, Hm. simpl. rewrite I1, I2. repeat split.
Qed.

Lemma click_toggles_expansion_witness :
  ui_isExpanded
    (gesture {| pt_x := 10; pt_y := 10 |}
       [ {| pt_x := 12; pt_y := 9 |}; {| pt_x := 13; pt_y := 13 |} ]
       {| pt_x := 120; pt_y := 60 |} {| size_width := 259; size_height := 124 |}
       {| size_width := 3840; size_height := 536 |} initialPanelUI) = true.
Proof.
  apply (click_toggles_expansion {| pt_x := 10; pt_y := 10 |}
           [ {| pt_x := 12; pt_y := 9 |}; {| pt_x := 13; pt_y := 13 |} ]
           {| pt_x := 120; pt_y := 60 |} {| size_width := 259; size_height := 124 |}
           {| size_width := 3840; size_height := 536 |} initialPanelUI).
  repeat constructor; intros [H|H]; vm_compute in H; discriminate H.
Defined.

(** X17: a press and release during which the pointer strays at least once
    more than three pixels from where it went down is a drag, also when the
    pointer comes back: it never toggles the expanded state, and the
    position it commits is not negative and, when the panel is not larger
    than the viewport, keeps the panel inside the viewport. *)
Theorem drag_commits_inside_viewport (down : Point) (moves : list Point)
    (current : Point) (currentSize viewportSize : Size) (ui : PanelUI) :
  Exists (beyond down) moves →
  let ui' := gesture down moves current currentSize viewportSize ui in
  ui_isExpanded ui' = ui_isExpanded ui
  ∧ (0 <= pt_x (committedPos ui'))%Q
  ∧ (0 <= pt_y (committedPos ui'))%Q
  ∧ ((size_width currentSize <= size_width viewportSize)%Q →
     (pt_x (committedPos ui') + size_width currentSize <= size_width viewportSize)%Q)
  ∧ ((size_height currentSize <= size_height viewportSize)%Q →
     (pt_y (committedPos ui') + size_height currentSize <= size_height viewportSize)%Q).
Proof.
  intros Hex. cbv zeta. unfold gesture.
  destruct (moves_spec down moves (handlePointerDown (pt_x down) (pt_y down) ui))
    as (I1 & I2 & I3 & I4); [reflexivity..|].
  cbv zeta in *.
  set (u := fold_left _ moves _) in *.
  assert (Hm : hasMoved (dragState u) = true) by (apply I4; right; exact Hex).
  unfold handlePointerUp. rewrite I3, Hm. simpl. rewrite I2.
  split; [reflexivity|]. split; [apply Q.le_max_l|]. split; [apply Q.le_max_l|].
  split; intros Hfit.
  - set (s := snapToGrid (pt_x current) GRID_SIZE).
    assert (H : (Qmax 0 (Qmin s (size_width viewportSize - size_width currentSize))
                 <= size_width viewportSize - size_width currentSize)%Q).
    { apply Q.max_lub; [lra | apply Q.le_min_r]. }
    lra.
  - set (s := snapToGrid (pt_y current) GRID_SIZE).
    assert (H : (Qmax 0 (Qmin s (size_height viewportSize - size_height currentSize))
                 <= size_height viewportSize - size_height currentSize)%Q).
    { apply Q.max_lub; [lra | apply Q.le_min_r]. }
    lra.
Qed.

Lemma drag_commits_inside_viewport_witness :
  (pt_x (committedPos
     (gesture {| pt_x := 10; pt_y := 10 |}
        [ {| pt_x := 4000; pt_y := 9 |}; {| pt_x := 11; pt_y := 10 |} ]
        {| pt_x := 4110; pt_y := 60 |} {| size_width := 259; size_height := 124 |}
        {| size_width := 3840; size_height := 536 |} initialPanelUI))
   + 259 <= 3840)%Q.
Proof.
  apply (drag_commits_inside_viewport {| pt_x := 10; pt_y := 10 |}
           [ {| pt_x := 4000; pt_y := 9 |}; {| pt_x := 11; pt_y := 10 |} ]
           {| pt_x := 4110; pt_y := 60 |} {| size_width := 259; size_height := 124 |}
           {| size_width := 3840; size_height := 536 |} initialPanelUI).
  - apply Exists_cons_hd. left. vm_compute. reflexivity.
  - vm_compute. discriminate.
Defined.

Lemma Qmult_le_mono_l (a x y : Q) : (0 <= a)%Q → (x <= y)%Q → (a * x <= a * y)%Q.
Proof.
  intros Ha Hxy. rewrite !(Qmult_comm a). apply Qmult_le_compat_r; assumption.
Qed.

Lemma progress_numbers_or_NaN (f : TimelineEvent → JSNumber) (l : list TimelineEvent) :
  (∃ p : TimelineEvent → Q, ∀ e, e ∈ l → f e = Num (p e))
  ∨ (∃ e, e ∈ l ∧ f e = NaN).
Proof.
  induction l as [|x l [[p Hp]|(e & He & Hn)]].
  - left. exists (λ _, 0%Q). intros e He. apply elem_of_nil in He. destruct He.
  - destruct (f x) as [|q] eqn:E.
    + right. exists x. split; [apply list_elem_of_here | exact E].
    + left. exists (λ e, match f e with Num r => r | NaN => 0%Q end).
      intros e He. apply elem_of_cons in He as [->|He].
      * rewrite E. reflexivity.
      * rewrite (Hp e He). reflexivity.
  - right. exists e. split; [apply list_elem_of_further, He | exact Hn].
Qed.

(** The size multiplier is NaN exactly when the spring progress of a fired
    expand or collapse event is NaN, and a number of [1, 1.8] otherwise. *)
Lemma sizeMultiplier_of_cases (spring : SpringArgs → JSNumber) (doc : TimelineData)
    (cfg : VideoConfig) (t : Z) :
  (sizeMultiplier_of spring doc cfg t = NaN
   ∧ ∃ e, e ∈ (fired_events doc t "Expand" ++ fired_events doc t "Collapse")%list
          ∧ progress_at spring (vc_fps cfg) t e = NaN)
  ∨ (∃ m, sizeMultiplier_of spring doc cfg t = Num m ∧ (1 <= m <= 1.8)%Q
          ∧ ∀ e, e ∈ (fired_events doc t "Expand" ++ fired_events doc t "Collapse")%list →
                 progress_at spring (vc_fps cfg) t e ≠ NaN).
Proof.
  destruct (progress_numbers_or_NaN (progress_at spring (vc_fps cfg) t)
              (fired_events doc t "Expand" ++ fired_events doc t "Collapse")%list)
    as [[p Hp]|(e & He & Hn)].
  - right. unfold sizeMultiplier_of. rewrite (netExpansion_num spring doc cfg t p Hp).
    pose proof (clamp_bounds (Qsum (map p (fired_events doc t "Expand"))
                              - Qsum (map p (fired_events doc t "Collapse")))) as [H0 H1].
    eexists. split; [reflexivity|]. split; [split; lra|].
    intros e He. rewrite (Hp e He). discriminate.
  - left. split; [|exists e; split; assumption].
    unfold sizeMultiplier_of. rewrite (netExpansion_NaN spring doc cfg t e He Hn).
    reflexivity.
Qed.

(** X18: in render mode the rectangle the layout effect stores for the
    shader is the rectangle of the overlay element.  When the spring
    progress of every fired expand and collapse event is a number, the panel
    drawn is never smaller than the base size nor larger than the expanded
    size: its width lies between the rounded base width and the width of
    [expandedSize], and likewise its height.  When one of these progresses
    is NaN, the stored width and height are NaN. *)
Theorem render_mode_panel_size (spring : SpringArgs → JSNumber)
    (StringToNumber : string → JSNumber)
    (doc : TimelineData) (cfg : VideoConfig) (t : Z)
    (settings : LiquidGlassSettings) (viewportSize : Size) :
  (0 <= width settings)%Q →
  (0 <= height settings)%Q →
  let ts := DashboardComposition spring StringToNumber doc cfg t in
  let fired_glass := (fired_events doc t "Expand" ++ fired_events doc t "Collapse")%list in
  ∃ rect,
    layoutEffect (Some ts) settings viewportSize = Some rect
    ∧ overlayRect settings ts viewportSize = rect
    ∧ ((∀ e, e ∈ fired_glass → progress_at spring (vc_fps cfg) t e ≠ NaN) →
       ∃ w h, rect_width rect = Num w ∧ rect_height rect = Num h
              ∧ (inject_Z (Math_round (width settings)) <= w
                 <= size_width (expandedSize settings))%Q
              ∧ (inject_Z (Math_round (height settings)) <= h
                 <= size_height (expandedSize settings))%Q)
    ∧ ((∃ e, e ∈ fired_glass ∧ progress_at spring (vc_fps cfg) t e = NaN) →
       rect_width rect = NaN ∧ rect_height rect = NaN).
Proof.
  intros Hw Hh. cbv zeta. unfold layoutEffect. eexists.
  split; [reflexivity|]. split; [reflexivity|].
  cbn [sizeMultiplier DashboardComposition rect_width rect_height].
  destruct (sizeMultiplier_of_cases spring doc cfg t)
    as [(Hs & e & He & Hn)|(m & Hs & [H1 H2] & Hnum)]; rewrite Hs.
  - split; [|intros _; split; reflexivity].
    intros Hall. exfalso. exact (Hall e He Hn).
  - split; [|intros (e & He & Hn); exfalso; exact (Hnum e He Hn)].
    intros _. cbn [js_mul js_round]. eexists. eexists.
    split; [reflexivity|]. split; [reflexivity|].
    cbn [size_width size_height expandedSize].
    assert (Hmono : ∀ a : Q, (0 <= a)%Q →
              (inject_Z (Math_round a) <= inject_Z (Math_round (a * m))
               <= inject_Z (Math_round (a * 1.8)))%Q).
    { intros a Ha. split; rewrite <- Zle_Qle; apply Math_round_le.
      - assert (a * 1 <= a * m)%Q by (apply Qmult_le_mono_l; lra).
        lra.
      - apply Qmult_le_mono_l; lra. }
    split; [apply Hmono, Hw | apply Hmono, Hh].
Qed.

Lemma render_mode_panel_size_witness :
  ∃ rect,
    layoutEffect
      (Some (DashboardComposition ramp_spring zero_of_string sample_doc sample_cfg 64))
      LIQUID_GLASS_DEFAULTS {| size_width := 3840; size_height := 536 |}
    = Some rect
    ∧ ∃ w, rect_width rect = Num w ∧ (259 <= w <= 466)%Q.
Proof.
  destruct (render_mode_panel_size ramp_spring zero_of_string sample_doc sample_cfg 64
              LIQUID_GLASS_DEFAULTS {| size_width := 3840; size_height := 536 |})
    as (rect & H1 & _ & H2 & _); [vm_compute; discriminate..|].
  exists rect. split; [exact H1|].
  destruct H2 as (w & h & Hw & _ & Hb & _).
  - intros e He.
    assert (Hl : (fired_events sample_doc 64 "Expand"
                  ++ fired_events sample_doc 64 "Collapse")%list
                 = [sample_event "e1" 60 "Expand" []]) by reflexivity.
    rewrite Hl in He. apply list_elem_of_singleton in He. subst e. discriminate.
  - exists w. split; [exact Hw | exact Hb].
Defined.

(** * The readiness signal in general *)

(** X19: with the canvas mounted and an [onReady] that returns, [onReady]
    is called exactly once exactly when the renderer cannot be constructed
    or the texture promise settles (resolved or rejected, and also when the
    first render throws); it is never called more than once, and it is not
    called at all while the texture promise stays pending.  Nothing is
    thrown out of the effect or of its promise callbacks. *)
Theorem onReady_once_iff_settled (env : MountEnv) :
  canvasPresent env = true →
  onReadyProp env = Some Returned →
  (onReadyCalls (mountEffect env) = 1%nat
   ↔ constructorThrows env = true ∨ textureLoad env ≠ Pending)
  ∧ (onReadyCalls (mountEffect env) ≤ 1)%nat
  ∧ (constructorThrows env = false → textureLoad env = Pending →
     onReadyCalls (mountEffect env) = 0%nat)
  ∧ ¬ crashes (mountEffect env).
Proof.
  destruct env as [c k tl dr o]. simpl. intros -> ->.
  destruct k, tl, dr; vm_compute; repeat split; try tauto; try discriminate;
    try (intros _; left; reflexivity); try (intros _; right; discriminate);
    try (intros [H|H]; discriminate H); try (intros [H|H]; [discriminate H | tauto]);
    try lia.
Qed.

Lemma onReady_once_iff_settled_witness :
  onReadyCalls (mountEffect {| canvasPresent := true; constructorThrows := false;
                               textureLoad := Resolved; doRenderThrows := true;
                               onReadyProp := Some Returned |}) = 1%nat.
Proof.
  apply (onReady_once_iff_settled
           {| canvasPresent := true; constructorThrows := false;
              textureLoad := Resolved; doRenderThrows := true;
              onReadyProp := Some Returned |}); [reflexivity | reflexivity|].
  right. discriminate.
Defined.

(** X20: [onReady] is called at most twice in a run of the effect, and
    twice only in one situation: the renderer was constructed, the texture
    loaded, the first render returned, and the call of [onReady] itself
    threw, so that the rejection handler called it again. *)
Theorem onReady_twice_iff (env : MountEnv) :
  (onReadyCalls (mountEffect env) ≤ 2)%nat
  ∧ (onReadyCalls (mountEffect env) = 2%nat
     ↔ canvasPresent env = true ∧ constructorThrows env = false
       ∧ textureLoad env = Resolved ∧ doRenderThrows env = false
       ∧ onReadyProp env = Some Threw).
Proof.
  destruct env as [c k tl dr [[|]|]]; destruct c, k, tl, dr; vm_compute;
    (split; [lia|]); split; try discriminate; try tauto;
    intros (H1 & H2 & H3 & H4 & H5); discriminate.
Qed.

(** * The colour of a component *)

Lemma ToInt32_range (z : Z) : - 2 ^ 31 ≤ ToInt32 z < 2 ^ 31.
Proof.
  unfold ToInt32. pose proof (Z.mod_pos_bound (z + 2 ^ 31) (2 ^ 32) ltac:(lia)). lia.
Qed.

Lemma ToInt32_congr (a b : Z) : a mod 2 ^ 32 = b mod 2 ^ 32 → ToInt32 a = ToInt32 b.
Proof.
  intros H. unfold ToInt32. f_equal.
  rewrite (Z.add_mod a), (Z.add_mod b), H by lia. reflexivity.
Qed.

Lemma ToInt32_mod (a : Z) : ToInt32 a mod 2 ^ 32 = a mod 2 ^ 32.
Proof.
  unfold ToInt32.
  replace ((a + 2 ^ 31) mod 2 ^ 32 - 2 ^ 31)
    with ((a + 2 ^ 31) mod 2 ^ 32 + - 2 ^ 31) by lia.
  rewrite Zplus_mod_idemp_l. f_equal. lia.
Qed.

Lemma hashStep_poly (p c : Z) : hashStep (ToInt32 p) c = ToInt32 (31 * p + c).
Proof.
  unfold hashStep. apply ToInt32_congr.
  rewrite Z.shiftl_mul_pow2 by lia.
  rewrite Z.add_mod, Zminus_mod, ToInt32_mod by lia.
  rewrite (Z.mul_mod (ToInt32 (ToInt32 p)) (2 ^ 5)), !ToInt32_mod by lia.
  rewrite <- Z.mul_mod, <- Zminus_mod, <- Z.add_mod by lia.
  f_equal. lia.
Qed.

Lemma componentHash_fold (codes : list Z) (p : Z) :
  fold_left hashStep codes (ToInt32 p) = ToInt32 (fold_left (λ h c, 31 * h + c) codes p).
Proof.
  revert p. induction codes as [|c codes IH]; intros p; simpl; [reflexivity|].
  rewrite hashStep_poly. apply IH.
Qed.

(** X21: the hash of [componentColor] is the hash that multiplies by 31 and
    adds the next code unit, kept in 32 bits; whatever the identifier, the
    index taken from it lies within [COLORS], so a colour is always
    returned. *)
Theorem componentColor_total (codes : list Z) :
  componentHash codes = ToInt32 (polyHash codes)
  ∧ 0 ≤ componentColorIndex codes < Z.of_nat (length COLORS)
  ∧ ∃ c, componentColor codes = Some c ∧ c ∈ COLORS.
Proof.
  assert (Hh : componentHash codes = ToInt32 (polyHash codes)).
  { unfold componentHash, polyHash. change 0 with (ToInt32 0) at 1.
    apply componentHash_fold. }
  assert (Hi : 0 ≤ componentColorIndex codes < Z.of_nat (length COLORS)).
  { unfold componentColorIndex. apply Z.rem_bound_pos; simpl; lia. }
  split; [exact Hh|]. split; [exact Hi|].
  unfold componentColor.
  destruct (COLORS !! Z.to_nat (componentColorIndex codes)) as [c|] eqn:E.
  - exists c. split; [reflexivity|]. eapply list_elem_of_lookup_2, E.
  - apply lookup_ge_None in E. simpl in *. lia.
Qed.

(** * The orbital panels *)

(** X22: a click gives the clicked panel the next of the three sizes (the
    first after the last) and leaves the other panels, the identifiers and
    the orders as they are; a size index that is within [PANEL_SIZES] stays
    within it, and three clicks on the same panel bring every size back. *)
Theorem clickPanel_cycles (i : Z) (panels : list Panel) :
  Forall (λ w, 0 ≤ sizeIndex w < Z.of_nat (length PANEL_SIZES)) panels →
  (∀ (k : nat) w, panels !! k = Some w → panel_id w = i →
     ∃ w', clickPanel i panels !! k = Some w'
           ∧ sizeIndex w' = (if bool_decide (sizeIndex w = 2) then 0 else sizeIndex w + 1)
           ∧ sizeIndex w' ≠ sizeIndex w)
  ∧ Forall (λ w, 0 ≤ sizeIndex w < Z.of_nat (length PANEL_SIZES)) (clickPanel i panels)
  ∧ map panel_id (clickPanel i panels) = map panel_id panels
  ∧ map order (clickPanel i panels) = map order panels
  ∧ filter (λ w, panel_id w ≠ i) (clickPanel i panels) = filter (λ w, panel_id w ≠ i) panels
  ∧ clickPanel i (clickPanel i (clickPanel i panels)) = panels.
Proof.
  intros Hrange. unfold clickPanel.
  set (f := λ w : Panel,
         if bool_decide (panel_id w = i)
         then {| panel_id := panel_id w; order := order w;
                 sizeIndex := Z.rem (sizeIndex w + 1) (Z.of_nat (length PANEL_SIZES)) |}
         else w).
  assert (Hid : ∀ w, panel_id (f w) = panel_id w).
  { intros w. unfold f. case_bool_decide; reflexivity. }
  assert (Hord : ∀ w, order (f w) = order w).
  { intros w. unfold f. case_bool_decide; reflexivity. }
  assert (Hother : ∀ w, panel_id w ≠ i → f w = w).
  { intros w Hw. unfold f. rewrite bool_decide_eq_false_2 by exact Hw. reflexivity. }
  assert (Hsize : ∀ w, 0 ≤ sizeIndex w < Z.of_nat (length PANEL_SIZES) →
                       0 ≤ sizeIndex (f w) < Z.of_nat (length PANEL_SIZES)).
  { intros w Hw. unfold f. case_bool_decide; [|exact Hw].
    cbn [sizeIndex]. apply Z.rem_bound_pos; simpl in *; lia. }
  assert (Hthree : ∀ w, 0 ≤ sizeIndex w < Z.of_nat (length PANEL_SIZES) →
                        f (f (f w)) = w).
  { intros [wi wo ws] Hw. simpl in Hw.
    destruct (decide (wi = i)) as [->|Hne].
    - unfold f. cbn [panel_id order sizeIndex].
      repeat (rewrite (bool_decide_eq_true_2 (i = i)) by reflexivity;
              cbn [panel_id order sizeIndex]).
      assert (Hs : ws = 0 ∨ ws = 1 ∨ ws = 2) by lia.
      destruct Hs as [->|[->| ->]]; reflexivity.
    - rewrite (Hother {| panel_id := wi; order := wo; sizeIndex := ws |}) by exact Hne.
      rewrite (Hother {| panel_id := wi; order := wo; sizeIndex := ws |}) by exact Hne.
      apply Hother. exact Hne. }
  assert (Hnext : ∀ w, 0 ≤ sizeIndex w < Z.of_nat (length PANEL_SIZES) →
                       panel_id w = i →
                       sizeIndex (f w)
                       = (if bool_decide (sizeIndex w = 2) then 0 else sizeIndex w + 1)
                       ∧ sizeIndex (f w) ≠ sizeIndex w).
  { intros [wi wo ws] Hw Hi. simpl in Hw, Hi. unfold f. cbn [panel_id sizeIndex].
    rewrite bool_decide_eq_true_2 by exact Hi. cbn [sizeIndex].
    assert (Hs : ws = 0 ∨ ws = 1 ∨ ws = 2) by lia.
    destruct Hs as [->|[->| ->]]; split; (reflexivity || discriminate). }
  clearbody f.
  split; [|split; [|split; [|split; [|split]]]].
  - intros k w Hk Hi. exists (f w). rewrite list_lookup_fmap, Hk.
    split; [reflexivity|]. apply Hnext; [|exact Hi].
    rewrite Forall_forall in Hrange. apply Hrange. eapply list_elem_of_lookup_2, Hk.
  - induction Hrange as [|w l Hw _ IH]; simpl; constructor; auto.
  - rewrite map_map. apply map_ext. exact Hid.
  - rewrite map_map. apply map_ext. exact Hord.
  - clear Hrange. induction panels as [|w l IH]; [reflexivity|]. cbn [map].
    rewrite !filter_cons, Hid, IH.
    case_decide; [rewrite Hother by assumption|]; reflexivity.
  - rewrite !map_map. induction Hrange as [|w l Hw _ IH]; simpl; [reflexivity|].
    rewrite Hthree by exact Hw. rewrite IH. reflexivity.
Qed.

Lemma clickPanel_cycles_witness :
  (∃ w', clickPanel 3 initialPanels !! 2%nat = Some w' ∧ sizeIndex w' = 2)
  ∧ clickPanel 3 (clickPanel 3 (clickPanel 3 initialPanels)) = initialPanels.
Proof.
  assert (Hr : Forall (λ w, 0 ≤ sizeIndex w < Z.of_nat (length PANEL_SIZES)) initialPanels)
    by (repeat constructor; simpl; lia).
  destruct (clickPanel_cycles 3 initialPanels Hr) as (Hnext & _ & _ & _ & _ & Hthree).
  split; [|exact Hthree].
  destruct (Hnext 2%nat {| panel_id := 3; order := 2; sizeIndex := 1 |} eq_refl eq_refl)
    as (w' & Hw' & Hs & _).
  exists w'. split; [exact Hw' | exact Hs].
Defined.








(** * Moving a row in the table *)





(** * Ties between position events *)

Lemma insert_by_stable {A} (key : A → Z) (k : Z) (e : A) (l : list A) :
  filter (λ x, key x = k) (insert_by key e l)
  = filter (λ x, key x = k) (e :: l).
Proof.
  induction l as [|y l IH]; simpl; [reflexivity|].
  case_bool_decide as Hle; [reflexivity|].
  rewrite (filter_cons _ y), IH, !filter_cons.
  destruct (decide (key y = k)) as [Hy|Hy]; destruct (decide (key e = k)) as [He|He];
    try reflexivity.
  lia.
Qed.

Lemma sort_by_stable {A} (key : A → Z) (k : Z) (l : list A) :
  filter (λ x, key x = k) (sort_by key l) = filter (λ x, key x = k) l.
Proof.
  induction l as [|x l IH]; simpl; [reflexivity|].
  rewrite insert_by_stable, !filter_cons, IH. reflexivity.
Qed.

(** X25: fired position events that share a frame keep the order in which
    the document lists them; so when several share the latest frame, the
    one that drives the position is the one the document lists last. *)
Theorem position_ties_by_document_order (doc : TimelineData) (t : Z) :
  let fired_in_order :=
    filter (λ e, componentId e = "GlassPanel" ∧ action e = "SetPosition" ∧ frame e ≤ t)
           (events doc) in
  (∀ k, filter (λ e, frame e = k) (firedPositionEvents doc t)
        = filter (λ e, frame e = k) fired_in_order)
  ∧ (∀ pre latest, firedPositionEvents doc t = (pre ++ [latest])%list →
       last (filter (λ e, frame e = frame latest) fired_in_order) = Some latest).
Proof.
  cbv zeta. split.
  - intros k. unfold firedPositionEvents. apply sort_by_stable.
  - intros pre latest H.
    rewrite <- (sort_by_stable frame (frame latest)).
    fold (firedPositionEvents doc t). rewrite H, filter_app, filter_cons.
    rewrite decide_True by reflexivity. rewrite filter_nil. apply last_snoc.
Qed.

Lemma position_ties_by_document_order_witness :
  let doc := with_events sample_doc
               [ sample_event "a" 10 "SetPosition" [("x", PNum 1)];
                 sample_event "b" 10 "SetPosition" [("x", PNum 2)] ] in
  last (filter (λ e, frame e = 10)
          (filter (λ e, componentId e = "GlassPanel" ∧ action e = "SetPosition"
                        ∧ frame e ≤ 20) (events doc)))
  = Some (sample_event "b" 10 "SetPosition" [("x", PNum 2)]).
Proof.
  intros doc.
  apply (proj2 (position_ties_by_document_order doc 20)
           [sample_event "a" 10 "SetPosition" [("x", PNum 1)]]
           (sample_event "b" 10 "SetPosition" [("x", PNum 2)])).
  reflexivity.
Defined.

(** * The segments and the expanded flag *)

Lemma isExpanded_true_iff (doc : TimelineData) (t : Z) :
  Forall (λ e, 0 ≤ frame e) (events doc) →
  isExpanded_of doc t = true
  ↔ ∃ e, fired doc t "Expand" e ∧ ∀ c, fired doc t "Collapse" c → frame c < frame e.
Proof.
  intros Hframes.
  unfold isExpanded_of, lastExpandFrame, lastCollapseFrame, expandEvents, collapseEvents.
  destruct (fold_max_spec (filter (λ e, action e = "Expand") (glassEvents doc t)) (-1))
    as (E1 & E2 & E3).
  destruct (fold_max_spec (filter (λ e, action e = "Collapse") (glassEvents doc t)) (-1))
    as (K1 & K2 & K3).
  cbv zeta in *.
  set (me := fold_left _ (filter (λ e, action e = "Expand") _) _) in *.
  set (mc := fold_left _ (filter (λ e, action e = "Collapse") _) _) in *.
  rewrite bool_decide_eq_true. split.
  - intros Hgt. destruct E3 as [E3|(e & He & E3)]; [lia|].
    exists e. split; [apply elem_of_class_events; exact He|].
    intros c Hc. apply elem_of_class_events in Hc. specialize (K2 c Hc). lia.
  - intros (e & He & Hlt).
    assert (H0 : 0 ≤ frame e).
    { destruct He as (Hin & _). rewrite Forall_forall in Hframes. auto. }
    apply elem_of_class_events in He. specialize (E2 e He).
    destruct K3 as [K3|(c & Hc & K3)]; [lia|].
    apply elem_of_class_events in Hc. specialize (Hlt c Hc). lia.
Qed.

Lemma string_app_inv_head (p a b : string) : (p ++ a = p ++ b)%string → a = b.
Proof.
  induction p as [|c p IH]; simpl; intros H; [exact H|].
  injection H as H. apply IH, H.
Qed.

Lemma segmentsOf_inv (sorted : list TimelineEvent) (d : Z) (s : Segment) :
  s ∈ segmentsOf sorted d →
  ∃ pre e rest,
    sorted = (pre ++ e :: rest)%list
    ∧ (s = {| seg_name := "â†“ Click: " ++ action e; seg_from := frame e;
              seg_duration := 2 |}
       ∨ s = {| seg_name := if bool_decide (action e = "Expand")
                            then "Expanded" else "Idle";
                seg_from := frame e + 2;
                seg_duration := match rest with
                                | next :: _ => frame next
                                | [] => d
                                end - (frame e + 2) |}).
Proof.
  induction sorted as [|evt rest IH]; intros Hs.
  - apply elem_of_nil in Hs. destruct Hs.
  - cbn [segmentsOf] in Hs. apply elem_of_app in Hs as [Hs|Hs].
    + exists [], evt, rest. split; [reflexivity|].
      case_bool_decide.
      * apply elem_of_cons in Hs as [->|Hs]; [left; reflexivity|].
        apply list_elem_of_singleton in Hs. right. exact Hs.
      * apply list_elem_of_singleton in Hs. left. exact Hs.
    + destruct (IH Hs) as (pre & e & rest' & -> & Hcase).
      exists (evt :: pre), e, rest'. split; [reflexivity | exact Hcase].
Qed.

(** X26: the names of the segments agree with the expanded flag.  When the
    panel has only expand and collapse events, at frames that are not
    negative and lie at least two frames apart, then at every frame covered
    by a segment the flag is true exactly when the segment is the click of
    an expand event or the state segment named Expanded. *)
Theorem segments_agree_with_isExpanded (doc : TimelineData) (s : Segment) (t : Z) :
  Forall (λ e, 0 ≤ frame e) (events doc) →
  Forall (λ e, componentId e = "GlassPanel" →
               action e = "Expand" ∨ action e = "Collapse") (events doc) →
  StronglySorted (λ a b, frame a + 2 ≤ frame b)
    (sort_by frame (filter (λ e, componentId e = "GlassPanel") (events doc))) →
  s ∈ compositionSegments doc →
  seg_from s ≤ t < seg_from s + seg_duration s →
  isExpanded_of doc t = true
  ↔ seg_name s = "Expanded" ∨ seg_name s = "â†“ Click: Expand".
Proof.
  intros Hnn Hact Hsp Hs Ht.
  rewrite (isExpanded_true_iff doc t Hnn).
  unfold compositionSegments, getSegments in Hs.
  set (G := filter (λ e, componentId e = "GlassPanel") (events doc)) in *.
  assert (HG : ∀ e, e ∈ sort_by frame G ↔ e ∈ events doc ∧ componentId e = "GlassPanel").
  { intros e. rewrite sort_by_perm. subst G. rewrite list_elem_of_filter. tauto. }
  assert (Hfired : ∀ cls e, fired doc t cls e
                            ↔ e ∈ sort_by frame G ∧ action e = cls ∧ frame e ≤ t).
  { intros cls e. unfold fired. rewrite HG. tauto. }
  assert (Hact' : ∀ e, e ∈ sort_by frame G → action e = "Expand" ∨ action e = "Collapse").
  { intros e He. apply HG in He as [Hin Hc]. rewrite Forall_forall in Hact. auto. }
  (* before the first event, and without events *)
  assert (Hnone : (∀ e, e ∈ sort_by frame G → t < frame e) →
                  seg_name s = "Idle" →
                  (∃ e, fired doc t "Expand" e
                        ∧ ∀ c, fired doc t "Collapse" c → frame c < frame e)
                  ↔ seg_name s = "Expanded" ∨ seg_name s = "â†“ Click: Expand").
  { intros Hfuture Hname. rewrite Hname. split.
    - intros (e & He & _). apply Hfired in He as (He & _ & Hle).
      specialize (Hfuture e He). lia.
    - intros [H|H]; discriminate H. }
  (* within the segments of an event *)
  assert (Hin : s ∈ segmentsOf (sort_by frame G) (durationFrames doc) →
                (∃ e, fired doc t "Expand" e
                      ∧ ∀ c, fired doc t "Collapse" c → frame c < frame e)
                ↔ seg_name s = "Expanded" ∨ seg_name s = "â†“ Click: Expand").
  { intros Hseg. apply segmentsOf_inv in Hseg as (pre & e & rest & Hsorted & Hcase).
    rewrite Hsorted in Hsp, Hfired, Hact'.
    apply StronglySorted_app in Hsp as (Hcross & _ & Hrest).
    apply StronglySorted_inv in Hrest as [Hrest' Hafter].
    rewrite Forall_forall in Hafter.
    assert (He : e ∈ (pre ++ e :: rest)%list)
      by (apply elem_of_app; right; apply list_elem_of_here).
    assert (Hrange : frame e ≤ t ∧ ∀ x, x ∈ rest → t < frame x).
    { destruct Hcase as [-> | ->]; cbn [seg_from seg_duration] in Ht.
      - split; [lia|]. intros x Hx. specialize (Hafter x Hx). lia.
      - split; [lia|]. intros x Hx. specialize (Hafter x Hx). simpl in Hafter.
        destruct rest as [|n rest'']; [apply elem_of_nil in Hx; destruct Hx|].
        apply elem_of_cons in Hx as [->|Hx]; [lia|].
        apply StronglySorted_inv in Hrest' as [_ Hn]. rewrite Forall_forall in Hn.
        specialize (Hn x Hx). simpl in Hn. lia. }
    destruct Hrange as [Hle Hfuture].
    assert (Hname : seg_name s = "Expanded" ∨ seg_name s = "â†“ Click: Expand"
                    ↔ action e = "Expand").
    { destruct Hcase as [-> | ->]; cbn [seg_name].
      - split.
        + intros [H|H]; [discriminate H|].
          exact (string_app_inv_head "â†“ Click: " (action e) "Expand" H).
        + intros ->. right. reflexivity.
      - case_bool_decide as Ha; split.
        + intros _. exact Ha.
        + intros _. left. reflexivity.
        + intros [H|H]; discriminate H.
        + intros Ha'. contradiction. }
    rewrite Hname. split.
    - intros (x & Hx & Hlt). apply Hfired in Hx as (Hx & Hxa & Hxt).
      destruct (Hact' e He) as [Ha|Ha]; [exact Ha|]. exfalso.
      assert (Hce : frame e < frame x) by (apply Hlt, Hfired; tauto).
      apply elem_of_app in Hx as [Hx|Hx].
      + specialize (Hcross x e Hx (list_elem_of_here _ _)). simpl in Hcross. lia.
      + apply elem_of_cons in Hx as [->|Hx]; [lia|]. specialize (Hfuture x Hx). lia.
    - intros Ha. exists e. split; [apply Hfired; tauto|].
      intros c Hc. apply Hfired in Hc as (Hc & Hca & Hct).
      apply elem_of_app in Hc as [Hc|Hc].
      + specialize (Hcross c e Hc (list_elem_of_here _ _)). simpl in Hcross. lia.
      + apply elem_of_cons in Hc as [->|Hc]; [congruence|].
        specialize (Hfuture c Hc). lia. }
  destruct (sort_by frame G) as [|first rest] eqn:E.
  - apply list_elem_of_singleton in Hs. subst s. apply Hnone; [|reflexivity].
    intros e He. apply elem_of_nil in He. destruct He.
  - apply elem_of_app in Hs as [Hs|Hs]; [|apply Hin, Hs].
    case_bool_decide; [|apply elem_of_nil in Hs; destruct Hs].
    apply list_elem_of_singleton in Hs. subst s. cbn [seg_from seg_duration] in Ht.
    apply Hnone; [|reflexivity].
    intros e He. apply elem_of_cons in He as [->|He]; [lia|].
    apply StronglySorted_inv in Hsp as [_ Hf]. rewrite Forall_forall in Hf.
    specialize (Hf e He). simpl in Hf. lia.
Qed.

Lemma segments_agree_with_isExpanded_witness :
  isExpanded_of expand_collapse_doc 100 = true.
Proof.
  apply (segments_agree_with_isExpanded expand_collapse_doc
           {| seg_name := "Expanded"; seg_from := 62; seg_duration := 178 |} 100).
  - repeat constructor; simpl; lia.
  - apply Forall_forall. intros e He Hc. simpl in He.
    repeat (apply elem_of_cons in He as [->|He]);
      [right; reflexivity | discriminate Hc | left; reflexivity|].
    apply elem_of_nil in He. destruct He.
  - vm_compute. repeat first [discriminate | constructor].
  - vm_compute. do 2 apply list_elem_of_further. apply list_elem_of_here.
  - simpl. lia.
  - left. reflexivity.
Defined.

(** * The shape handed to the shaders *)

(** X27: for a radius setting between 0 and 100 and sizes that are not
    negative, the corner radius handed to the shaders is never negative and
    never more than half the width or half the height of the shape; and the
    stretch by the speed of the mouse spring never makes the shape smaller
    than the panel. *)
Theorem shapeUniforms_radius_fits (isOrbital : bool) (cInfo : CanvasInfo)
    (s : LiquidGlassSettings) (pPos : Point) (pSize : Size) (mouseSpringSpeed : Point) :
  (0 <= radius s <= 100)%Q →
  (0 <= width s)%Q → (0 <= height s)%Q →
  (0 <= size_width pSize)%Q → (0 <= size_height pSize)%Q →
  let u := shapeUniforms isOrbital cInfo s pPos pSize mouseSpringSpeed in
  (0 <= u_shapeRadius u)%Q
  ∧ (u_shapeRadius u <= u_shapeWidth u / 2)%Q
  ∧ (u_shapeRadius u <= u_shapeHeight u / 2)%Q
  ∧ (isOrbital = false →
     (size_width pSize <= u_shapeWidth u)%Q ∧ (size_height pSize <= u_shapeHeight u)%Q).
Proof.
  intros [Hr0 Hr1] Hw Hh Hpw Hph. cbv zeta.
  assert (Hfit : ∀ a b : Q, (0 <= a)%Q → (0 <= b)%Q →
            (0 <= Qmin a b / 2 * (radius s / 100))%Q
            ∧ (Qmin a b / 2 * (radius s / 100) <= a / 2)%Q
            ∧ (Qmin a b / 2 * (radius s / 100) <= b / 2)%Q).
  { intros a b Ha Hb.
    assert (Hm0 : (0 <= Qmin a b)%Q) by (apply Q.min_glb; assumption).
    pose proof (Q.le_min_l a b) as Hma. pose proof (Q.le_min_r a b) as Hmb.
    set (m := Qmin a b) in *. clearbody m.
    assert (Hq : (0 <= radius s / 100 <= 1)%Q).
    { split; [apply Qle_shift_div_l | apply Qle_shift_div_r]; lra. }
    set (q := (radius s / 100)%Q) in *. clearbody q.
    unfold Qdiv. change (/ 2)%Q with (1 # 2)%Q.
    assert (H1 : (m * (1 # 2) * 0 <= m * (1 # 2) * q)%Q) by (apply Qmult_le_mono_l; lra).
    assert (H2 : (m * (1 # 2) * q <= m * (1 # 2) * 1)%Q) by (apply Qmult_le_mono_l; lra).
    lra. }
  assert (Hstretch : ∀ a v : Q, (0 <= a)%Q → (a <= a + Qabs v * a * 8 / 100)%Q).
  { intros a v Ha. pose proof (Qabs_nonneg v) as Hv.
    set (k := Qabs v) in *. clearbody k.
    assert (H : (0 <= k * a)%Q) by (apply Qmult_le_0_compat; assumption).
    assert (E : (k * a * 8 / 100 == (k * a) * (8 # 100))%Q) by (field).
    rewrite E. lra. }
  unfold shapeUniforms. destruct isOrbital; cbn [u_shapeRadius u_shapeWidth u_shapeHeight].
  - destruct (Hfit (width s) (height s) Hw Hh) as (F1 & F2 & F3).
    split; [exact F1|]. split; [exact F2|]. split; [exact F3|]. discriminate.
  - pose proof (Hstretch (size_width pSize) (pt_x mouseSpringSpeed) Hpw) as Sw.
    pose proof (Hstretch (size_height pSize) (pt_y mouseSpringSpeed) Hph) as Sh.
    destruct (Hfit _ _ (Qle_trans _ _ _ Hpw Sw) (Qle_trans _ _ _ Hph Sh)) as (F1 & F2 & F3).
    split; [exact F1|]. split; [exact F2|]. split; [exact F3|]. intros _. split; assumption.
Qed.

Lemma shapeUniforms_radius_fits_witness :
  let u := shapeUniforms false {| ci_width := 3840; ci_height := 536; ci_dpr := 2 |}
             LIQUID_GLASS_DEFAULTS {| pt_x := 120; pt_y := 60 |}
             {| size_width := 259; size_height := 124 |} {| pt_x := 3; pt_y := -1 |} in
  (0 <= u_shapeRadius u)%Q
  ∧ (u_shapeRadius u <= u_shapeWidth u / 2)%Q
  ∧ (u_shapeRadius u <= u_shapeHeight u / 2)%Q
  ∧ (false = false →
     (259 <= u_shapeWidth u)%Q ∧ (124 <= u_shapeHeight u)%Q).
Proof.
  apply (shapeUniforms_radius_fits false
           {| ci_width := 3840; ci_height := 536; ci_dpr := 2 |}
           LIQUID_GLASS_DEFAULTS {| pt_x := 120; pt_y := 60 |}
           {| size_width := 259; size_height := 124 |} {| pt_x := 3; pt_y := -1 |});
    vm_compute; try split; discriminate.
Defined.
